(** * SoccerTrack / sportslabkit: the multi-object tracking core

    A shallow embedding of the two tracking orchestrators of the repository,

    - [Base]: [sportslabkit/mot/base.py], the ABC-based [MultiObjectTracker]
      ([process_sequence_item], [track], staleness management, cleanup);
    - [TrackingModel]: [sportslabkit/tracking_model/multi_object_tracker.py],
      the motpy-style [MultiObjectTracker] ([step], [cleanup_trackers]);

    and of the tracklet lifecycle both of them drive.  Python objects that
    are mutated in place live in an explicit object store, exceptions keep the
    state reached when they are raised. *)

From Stdlib Require Import ZArith List Lia Bool String Permutation.
From stdpp Require Import base list gmap strings.

Open Scope Z_scope.

(** ** Python exceptions

    Only the exceptions the modelled code can raise; the payload of the
    missing-observation error is the data its message is formatted from. *)
Inductive exn : Type :=
| ValueError_not_iterable
| ValueError_missing_types (missing required : list string)
| ValueError_range_step_zero
| ValueError_no_objects_to_concatenate
| NotImplementedError_batched
| TypeError_no_len
| AttributeError_squeeze
| IndexError.

(** The result of running a method: a returned value or a raised exception. *)
Inductive outcome (A : Type) : Type :=
| Ret (a : A)
| Raise (e : exn).
Arguments Ret {A} a.
Arguments Raise {A} e.

(** ** Python built-ins used by the orchestrators *)

(** [x or y] on an optional integer: [None] and [0] are falsy. *)
Definition truthy (x : option Z) : bool :=
  match x with
  | None => false
  | Some z => negb (z =? 0)
  end.

Definition py_or (x : option Z) (y : Z) : Z :=
  match x with
  | Some z => if truthy x then z else y
  | None => y
  end.

(** [range(start, stop, step)]; a zero step raises [ValueError]. *)
Definition range_len (start stop step : Z) : Z :=
  if 0 <? step then
    if start <? stop then (stop - start - 1) / step + 1 else 0
  else
    if stop <? start then (start - stop - 1) / (- step) + 1 else 0.

Definition py_range (start stop step : Z) : option (list Z) :=
  if step =? 0 then None
  else Some (map (fun k : nat => start + Z.of_nat k * step)
                 (seq 0 (Z.to_nat (range_len start stop step)))).

(** [l[i:j]]: negative bounds count from the end, both are clamped. *)
Definition slice_bound (n x : Z) : Z :=
  if x <? 0 then Z.max (x + n) 0 else Z.min x n.

Definition py_slice {A : Type} (l : list A) (i j : Z) : list A :=
  let n := Z.of_nat (length l) in
  let lo := slice_bound n i in
  let hi := slice_bound n j in
  take (Z.to_nat (hi - lo)) (drop (Z.to_nat lo) l).

(** [ndarray.squeeze()] on a shape: every axis of extent one is dropped. *)
Definition squeeze (shape : list nat) : list nat :=
  filter (fun d : nat => d ≠ 1%nat) shape.

(** ** Methods as state transformers

    A method runs on the state of [self] and either returns a value or raises;
    the state an exception leaves behind is the one reached when it was
    raised, as in Python. *)
Module Py.
Section Monad.
Context {St : Type}.

Definition M (A : Type) : Type := St -> St * outcome A.

Definition ret {A : Type} (a : A) : M A := fun s => (s, Ret a).

Definition raise {A : Type} (e : exn) : M A := fun s => (s, Raise e).

Definition bind {A B : Type} (m : M A) (k : A -> M B) : M B :=
  fun s =>
    match m s with
    | (s', Ret a) => k a s'
    | (s', Raise e) => (s', Raise e)
    end.

Definition get : M St := fun s => (s, Ret s).

Definition modify (f : St -> St) : M unit := fun s => (f s, Ret tt).

End Monad.
Arguments M St A : clear implicits.

#[export] Instance M_ret {St : Type} : MRet (M St) := @ret St.
#[export] Instance M_bind {St : Type} : MBind (M St) := fun A B k m => bind m k.

(** [for x in l: body(x)] *)
Fixpoint for_each {St A : Type} (l : list A) (body : A -> M St unit) : M St unit :=
  match l with
  | [] => ret tt
  | x :: l' => body x;; for_each l' body
  end.

End Py.
Export Py.

(** ** The tracklet *)
Module Tracklet.

(** Modelled from the spec: the class [Tracklet] ([sportslabkit.Tracklet],
    [sportslabkit.types.tracklet.Tracklet]) is not among the sources.  The
    record keeps the attributes of section 3 of the specification: the
    identifier, the consecutive-miss counter, the staleness bound given to
    the constructor, the step of the last real update, the registered
    observation and state types, the append-only history with one entry per
    update call ([None] is the miss sentinel) and the terminal mark set by
    [cleanup].  [steps_alive] is the counter of [increment_counter], a
    method the orchestrator calls and the specification does not describe.
    The attached motion model and the derived values are opaque to the
    orchestrators and left out. *)
Record t (O : Type) : Type := mk {
  id : nat;
  staleness : nat;
  max_staleness : Z;
  steps_alive : nat;
  last_updated_step : option nat;
  observation_types : list string;
  state_types : list string;
  observations : list (option O);
  terminal : bool;
}.
Arguments mk {O}.
Arguments id {O}.
Arguments staleness {O}.
Arguments max_staleness {O}.
Arguments steps_alive {O}.
Arguments last_updated_step {O}.
Arguments observation_types {O}.
Arguments state_types {O}.
Arguments observations {O}.
Arguments terminal {O}.

Section Methods.
Context {O : Type}.

(** [Tracklet(max_staleness=...)]: a fresh tracklet, nothing registered,
    empty history, staleness 0. *)
Definition new (fresh_id : nat) (max_staleness : Z) : t O :=
  mk fresh_id 0%nat max_staleness 0%nat None [] [] [] false.

Definition set_staleness (n : nat) (tr : t O) : t O :=
  mk (id tr) n (max_staleness tr) (steps_alive tr) (last_updated_step tr)
     (observation_types tr) (state_types tr) (observations tr) (terminal tr).

Definition register_observation_type (name : string) (tr : t O) : t O :=
  mk (id tr) (staleness tr) (max_staleness tr) (steps_alive tr)
     (last_updated_step tr) (observation_types tr ++ [name]) (state_types tr)
     (observations tr) (terminal tr).

Definition register_state_type (name : string) (tr : t O) : t O :=
  mk (id tr) (staleness tr) (max_staleness tr) (steps_alive tr)
     (last_updated_step tr) (observation_types tr) (state_types tr ++ [name])
     (observations tr) (terminal tr).

(** [update_observations(states, global_step)]: one history entry is
    appended and the step recorded; staleness is left to the caller. *)
Definition update_observations (states : O) (global_step : nat) (tr : t O) : t O :=
  mk (id tr) (staleness tr) (max_staleness tr) (steps_alive tr)
     (Some global_step) (observation_types tr) (state_types tr)
     (observations tr ++ [Some states]) (terminal tr).

Definition increment_counter (tr : t O) : t O :=
  mk (id tr) (staleness tr) (max_staleness tr) (S (steps_alive tr))
     (last_updated_step tr) (observation_types tr) (state_types tr)
     (observations tr) (terminal tr).

(** [update(detection_or_none, step)] of section 4.1: a real detection is
    appended, resets staleness and records the step (the keyword
    [global_step] may be left out); a miss appends the sentinel and
    increments staleness. *)
Definition update (detection : option O) (global_step : option nat) (tr : t O) : t O :=
  match detection with
  | Some d =>
      mk (id tr) 0%nat (max_staleness tr) (steps_alive tr)
         global_step (observation_types tr) (state_types tr)
         (observations tr ++ [Some d]) (terminal tr)
  | None =>
      mk (id tr) (S (staleness tr)) (max_staleness tr) (steps_alive tr)
         (last_updated_step tr) (observation_types tr) (state_types tr)
         (observations tr ++ [None]) (terminal tr)
  end.

(** [is_stale()]: true iff [staleness > max_staleness]. *)
Definition is_stale (tr : t O) : bool :=
  max_staleness tr <? Z.of_nat (staleness tr).

(** [len(tracklet)]: the number of history entries. *)
Definition len (tr : t O) : nat := length (observations tr).

(** [cleanup()]: marks the terminal status and changes nothing else. *)
Definition cleanup (tr : t O) : t O :=
  mk (id tr) (staleness tr) (max_staleness tr) (steps_alive tr)
     (last_updated_step tr) (observation_types tr) (state_types tr)
     (observations tr) true.
End Methods.

End Tracklet.

(** ** The ABC-based orchestrator ([sportslabkit/mot/base.py]) *)
Module Base.

(** A reference to a tracklet object: its index in the object store. *)
Abbreviation ref := nat.

Section Orchestrator.
(** [Value] is the type of the entries of a state dictionary
    ([Dict[str, Any]]), [Payload] the content of a frame. *)
Context {Value Payload : Type}.

(** A tracklet of this orchestrator records state dictionaries. *)
Abbreviation tracklet := (Tracklet.t (gmap string Value)).

(** The attributes of [self], together with the store of the tracklet
    objects the lists refer to: the lists of [self] hold references, and
    a method that mutates a tracklet mutates the store. *)
Record MultiObjectTracker : Type := mkTracker {
  window_size : Z;
  step_size : Z;
  max_staleness : Z;
  min_length : Z;
  alive_tracklets : list ref;
  dead_tracklets : list ref;
  frame_count : nat;
  store : list tracklet;
}.

Definition set_frame_count (n : nat) (s : MultiObjectTracker) : MultiObjectTracker :=
  mkTracker (window_size s) (step_size s) (max_staleness s) (min_length s)
            (alive_tracklets s) (dead_tracklets s) n (store s).

Definition set_alive_tracklets (l : list ref) (s : MultiObjectTracker) : MultiObjectTracker :=
  mkTracker (window_size s) (step_size s) (max_staleness s) (min_length s)
            l (dead_tracklets s) (frame_count s) (store s).

Definition set_dead_tracklets (l : list ref) (s : MultiObjectTracker) : MultiObjectTracker :=
  mkTracker (window_size s) (step_size s) (max_staleness s) (min_length s)
            (alive_tracklets s) l (frame_count s) (store s).

Definition set_store (h : list tracklet) (s : MultiObjectTracker) : MultiObjectTracker :=
  mkTracker (window_size s) (step_size s) (max_staleness s) (min_length s)
            (alive_tracklets s) (dead_tracklets s) (frame_count s) h.

(** The methods of this class run on its state. *)
Definition M : Type -> Type := Py.M MultiObjectTracker.

(** In-place mutation of the object a reference points to. *)
Definition mutate (r : ref) (f : tracklet -> tracklet) : M unit :=
  modify (fun s => set_store (alter f r (store s)) s).

(** *** Sequence items and input sources *)

(** What [process_sequence_item] receives: a numpy array with its shape,
    or any other object. *)
Inductive SequenceItem : Type :=
| ItemArray (shape : list nat) (data : list Payload)
| ItemOther (data : Payload).

(** [isinstance(sequence, np.ndarray) and len(sequence.shape) == 4] *)
Definition is_batched (sequence : SequenceItem) : bool :=
  match sequence with
  | ItemArray shape _ => Nat.eqb (length shape) 4
  | ItemOther _ => false
  end.

(** A numpy array with at least one axis: its rows along the first axis
    and the shape of a row. *)
Record ndarray : Type := mkArray {
  rows : list Payload;
  row_shape : list nat;
}.

(** What [track] receives: an array, a list (iterable and sized, but its
    slices have no [squeeze]), an iterable without [len], or an object
    that is neither [Iterable] nor an array. *)
Inductive Source : Type :=
| SrcArray (a : ndarray)
| SrcList (l : list Payload)
| SrcIterator
| SrcNotIterable.

(** [isinstance(sequence, (Iterable, np.ndarray))] *)
Definition is_iterable_or_array (sequence : Source) : bool :=
  match sequence with
  | SrcNotIterable => false
  | _ => true
  end.

(** [len(sequence)] *)
Definition source_len (sequence : Source) : M Z :=
  match sequence with
  | SrcArray a => ret (Z.of_nat (length (rows a)))
  | SrcList l => ret (Z.of_nat (length l))
  | SrcIterator => raise TypeError_no_len
  | SrcNotIterable => raise TypeError_no_len
  end.

(** [sequence[i : i + window_size].squeeze()] *)
Definition window (sequence : Source) (i w : Z) : M SequenceItem :=
  match sequence with
  | SrcArray a =>
      let data := py_slice (rows a) i (i + w) in
      ret (ItemArray (squeeze (length data :: row_shape a)) data)
  | SrcList _ => raise AttributeError_squeeze
  | SrcIterator => raise TypeError_no_len
  | SrcNotIterable => raise TypeError_no_len
  end.

(** *** The abstract members a subclass provides *)
Variable required_observation_types : list string.
Variable required_state_types : list string.
Variable update :
  SequenceItem -> list ref -> M (list ref * list ref * list ref).

(** *** Methods *)

Definition reset : M unit :=
  modify (fun s => set_frame_count 0 (set_dead_tracklets [] (set_alive_tracklets [] s))).

(** [__init__(window_size=1, step_size=None, max_staleness=5, min_length=5)] *)
Definition init (window_size : Z) (step_size : option Z)
    (max_staleness min_length : Z) : MultiObjectTracker :=
  fst (reset (mkTracker window_size (py_or step_size window_size)
                        max_staleness min_length [] [] 0 [])).

Definition missing_types (target : gmap string Value) : list string :=
  filter (fun required_type => target !! required_type = None)
         required_observation_types.

Definition _check_required_observations (target : gmap string Value) : M unit :=
  match missing_types target with
  | [] => ret tt
  | missing => raise (ValueError_missing_types missing required_observation_types)
  end.

Definition update_tracklet (tr : ref) (states : gmap string Value) : M ref :=
  _check_required_observations states;;
  s ← get;
  mutate tr (Tracklet.update_observations states (frame_count s));;
  mutate tr Tracklet.increment_counter;;
  ret tr.

(** [Tracklet(max_staleness=self.max_staleness)]: a new object is
    allocated in the store; its identifier is fresh. *)
Definition alloc_tracklet : M ref :=
  fun s =>
    let r := length (store s) in
    (set_store (store s ++ [Tracklet.new r (max_staleness s)]) s, Ret r).

Definition create_tracklet (state : gmap string Value) : M ref :=
  tr ← alloc_tracklet;
  for_each required_observation_types
    (fun required_type => mutate tr (Tracklet.register_observation_type required_type));;
  for_each required_state_types
    (fun required_type => mutate tr (Tracklet.register_state_type required_type));;
  _check_required_observations state;;
  update_tracklet tr state;;
  ret tr.

Definition increment_staleness (tracklets : list ref) : M (list ref) :=
  for_each tracklets
    (fun r => mutate r (fun t => Tracklet.set_staleness (S (Tracklet.staleness t)) t));;
  ret tracklets.

Definition reset_staleness (tracklets : list ref) : M (list ref) :=
  for_each tracklets (fun r => mutate r (Tracklet.set_staleness 0));;
  ret tracklets.

(** Reading an attribute through a reference. *)
Definition ref_is_stale (h : list tracklet) (r : ref) : bool :=
  match h !! r with
  | Some t => Tracklet.is_stale t
  | None => false
  end.

Definition ref_len (h : list tracklet) (r : ref) : Z :=
  match h !! r with
  | Some t => Z.of_nat (Tracklet.len t)
  | None => 0
  end.

Definition separate_stale_tracklets (unassigned_tracklets : list ref)
    : M (list ref * list ref) :=
  s ← get;
  ret (filter (fun r => ref_is_stale (store s) r = false) unassigned_tracklets,
       filter (fun r => ref_is_stale (store s) r = true) unassigned_tracklets).

Definition cleanup_tracklets (tracklets : list ref) : M (list ref) :=
  for_each tracklets (fun r => mutate r Tracklet.cleanup);;
  s ← get;
  ret (filter (fun r => min_length s <= ref_len (store s) r) tracklets).

Definition process_sequence_item (sequence : SequenceItem) : M unit :=
  modify (fun s => set_frame_count (S (frame_count s)) s);;
  s ← get;
  let tracklets := alive_tracklets s in
  if is_batched sequence then raise NotImplementedError_batched
  else
    '(assigned_tracklets, new_tracklets, unassigned_tracklets) ← update sequence tracklets;
    assigned_tracklets ← reset_staleness assigned_tracklets;
    unassigned_tracklets ← increment_staleness unassigned_tracklets;
    '(non_stale_tracklets, stale_tracklets) ← separate_stale_tracklets unassigned_tracklets;
    stale_tracklets ← cleanup_tracklets stale_tracklets;
    modify (set_alive_tracklets (assigned_tracklets ++ new_tracklets ++ non_stale_tracklets));;
    modify (fun s => set_dead_tracklets (dead_tracklets s ++ stale_tracklets) s).

Definition pre_track : M unit := ret tt.

Definition post_track : M unit := ret tt.

(** [to_bbdf]: the exported tracklets, in column order; [pd.concat]
    raises on an empty list. *)
Definition to_bbdf : M (list ref) :=
  s ← get;
  let all_tracklets := alive_tracklets s ++ dead_tracklets s in
  match all_tracklets with
  | [] => raise ValueError_no_objects_to_concatenate
  | _ => ret all_tracklets
  end.

(** The frame loop of [track]. *)
Definition frame_loop (sequence : Source) : M unit :=
  n ← source_len sequence;
  s ← get;
  match py_range 0 (n - window_size s + 1) (step_size s) with
  | None => raise ValueError_range_step_zero
  | Some idxs =>
      for_each idxs
        (fun i =>
           s ← get;
           item ← window sequence i (window_size s);
           process_sequence_item item)
  end.

Definition final_cleanup : M unit :=
  s ← get;
  alive ← cleanup_tracklets (alive_tracklets s);
  modify (set_alive_tracklets alive).

Definition track (sequence : Source) : M (list ref) :=
  if negb (is_iterable_or_array sequence) then raise ValueError_not_iterable
  else
    reset;;
    pre_track;;
    frame_loop sequence;;
    final_cleanup;;
    post_track;;
    to_bbdf.

End Orchestrator.

(** *** A concrete subclass

    The smallest subclass that exercises every method: a frame carries the
    state dictionaries of its detections, and [update] pairs the live
    tracklets with them by position. *)
Module Sample.

Definition required_observation_types : list string := ["box"; "score"]%string.

Definition required_state_types : list string := ["box"]%string.

Definition detections_of (sequence : @SequenceItem (list (gmap string Z)))
    : list (gmap string Z) :=
  match sequence with
  | ItemArray _ data => concat data
  | ItemOther data => data
  end.

Fixpoint pair_by_position (tracklets : list ref) (detections : list (gmap string Z))
    : @M Z (list ref * list ref * list ref) :=
  match tracklets, detections with
  | tr :: tracklets', d :: detections' =>
      tr ← update_tracklet required_observation_types tr d;
      '(assigned, new, unassigned) ← pair_by_position tracklets' detections';
      mret (tr :: assigned, new, unassigned)
  | [], d :: detections' =>
      tr ← create_tracklet required_observation_types required_state_types d;
      '(assigned, new, unassigned) ← pair_by_position [] detections';
      mret (assigned, tr :: new, unassigned)
  | _, [] => mret ([], [], tracklets)
  end.

Definition update (sequence : @SequenceItem (list (gmap string Z)))
    (tracklets : list ref) : @M Z (list ref * list ref * list ref) :=
  pair_by_position tracklets (detections_of sequence).

(** A complete detection and one without its score. *)
Definition det (box score : Z) : gmap string Z :=
  {[ "box"%string := box; "score"%string := score ]}.

Definition det_without_score (box : Z) : gmap string Z :=
  {[ "box"%string := box ]}.

(** Items: one frame with the given detections, and a batch of two frames. *)
Definition frame (detections : list (gmap string Z))
    : @SequenceItem (list (gmap string Z)) :=
  ItemArray [720; 1280; 3]%nat [detections].

Definition batch : @SequenceItem (list (gmap string Z)) :=
  ItemArray [2; 720; 1280; 3]%nat [[]; []].

(** A tracker of this subclass, and the state after a run of frames. *)
Definition start (max_staleness min_length : Z) : @MultiObjectTracker Z :=
  init 1 None max_staleness min_length.

Definition run_frames (items : list (@SequenceItem (list (gmap string Z))))
    (s : @MultiObjectTracker Z) : @MultiObjectTracker Z :=
  foldl (fun s item => fst (process_sequence_item update item s)) s items.

(** A video of three frames: one detection, none, one detection. *)
Definition video : @Source (list (gmap string Z)) :=
  SrcArray (mkArray [[det 1 90]; []; [det 2 80]] [720; 1280; 3]%nat).

End Sample.
End Base.

(** ** The motpy-style orchestrator
    ([sportslabkit/tracking_model/multi_object_tracker.py]) *)
Module TrackingModel.

Section Orchestrator.
Context {Detection : Type}.

Abbreviation tracklet := (Tracklet.t Detection).

(** The attributes of [self] that [step] reads or writes.  [tracker_kwargs]
    is the staleness bound handed to the tracklet constructor; [next_id]
    stands for the source of fresh identifiers. *)
Record MultiObjectTracker : Type := mkTracker {
  tracker_kwargs : Z;
  trackers : list tracklet;
  stale_trackers : list tracklet;
  detections_matched_ids : list (option nat);
  current_step : nat;
  next_id : nat;
}.

Definition M : Type -> Type := Py.M MultiObjectTracker.

Definition set_trackers (l : list tracklet) (s : MultiObjectTracker) : MultiObjectTracker :=
  mkTracker (tracker_kwargs s) l (stale_trackers s) (detections_matched_ids s)
            (current_step s) (next_id s).

Definition set_stale_trackers (l : list tracklet) (s : MultiObjectTracker) : MultiObjectTracker :=
  mkTracker (tracker_kwargs s) (trackers s) l (detections_matched_ids s)
            (current_step s) (next_id s).

Definition set_detections_matched_ids (l : list (option nat)) (s : MultiObjectTracker)
    : MultiObjectTracker :=
  mkTracker (tracker_kwargs s) (trackers s) (stale_trackers s) l
            (current_step s) (next_id s).

Definition set_current_step (n : nat) (s : MultiObjectTracker) : MultiObjectTracker :=
  mkTracker (tracker_kwargs s) (trackers s) (stale_trackers s)
            (detections_matched_ids s) n (next_id s).

Definition set_next_id (n : nat) (s : MultiObjectTracker) : MultiObjectTracker :=
  mkTracker (tracker_kwargs s) (trackers s) (stale_trackers s)
            (detections_matched_ids s) (current_step s) n.

(** [__init__]: no trackers, step 0. *)
Definition init (tracker_kwargs : Z) : MultiObjectTracker :=
  mkTracker tracker_kwargs [] [] [] 0 0.

(** *** Collaborators

    The matching strategy, the two tracklet predicates that are neither in
    the sources nor in the specification, and the order in which Python
    iterates over a set of indices. *)
Variable matching_fn : list tracklet -> list Detection -> list (nat * nat).
Variable is_invalid : tracklet -> bool.
Variable is_active : tracklet -> bool.
Variable set_order : list nat -> list nat.

(** [set(range(n)).difference(assigned)], as the list the loop visits. *)
Definition unassigned_indices (n : nat) (assigned : list nat) : list nat :=
  set_order (filter (fun i => i ∉ assigned) (seq 0 n)).

(** [self.trackers[track_idx].update(detection, global_step=self.current_step)] *)
Definition update_tracker (track_idx : nat) (detection : option Detection) : M unit :=
  s ← get;
  match trackers s !! track_idx with
  | None => raise IndexError
  | Some _ =>
      modify (set_trackers
                (alter (Tracklet.update detection (Some (current_step s))) track_idx
                       (trackers s)))
  end.

(** [detections[det_idx]] *)
Definition detection_at (detections : list Detection) (det_idx : nat) : M Detection :=
  match detections !! det_idx with
  | None => raise IndexError
  | Some d => ret d
  end.

(** [self.detections_matched_ids[det_idx] = tracker_id] *)
Definition record_match (det_idx tracker_id : nat) : M unit :=
  s ← get;
  if decide (det_idx < length (detections_matched_ids s))%nat then
    modify (set_detections_matched_ids
              (<[det_idx := Some tracker_id]> (detections_matched_ids s)))
  else raise IndexError.

(** The body of the loop over the matches. *)
Definition apply_match (detections : list Detection) (match_ : nat * nat) : M unit :=
  let '(track_idx, det_idx) := match_ in
  s ← get;
  match trackers s !! track_idx with
  | None => raise IndexError
  | Some _ =>
      d ← detection_at detections det_idx;
      update_tracker track_idx (Some d);;
      s ← get;
      match trackers s !! track_idx with
      | None => raise IndexError
      | Some t => record_match det_idx (Tracklet.id t)
      end
  end.

Definition instatiate_tracker_with_detection (detection : Detection) : M tracklet :=
  s ← get;
  modify (set_next_id (S (next_id s)));;
  ret (Tracklet.update (Some detection) None
         (Tracklet.new (next_id s) (tracker_kwargs s))).

(** The body of the loop over the detections without a match. *)
Definition create_tracker (detections : list Detection) (det_idx : nat) : M unit :=
  det ← detection_at detections det_idx;
  tracker ← instatiate_tracker_with_detection det;
  record_match det_idx (Tracklet.id tracker);;
  modify (fun s => set_trackers (trackers s ++ [tracker]) s).

Definition cleanup_trackers : M unit :=
  modify (fun s =>
    set_trackers
      (filter (fun t => negb (Tracklet.is_stale t || is_invalid t) = true) (trackers s))
      (set_stale_trackers
         (stale_trackers s ++
          filter (fun t => Tracklet.is_stale t && negb (is_invalid t) = true) (trackers s))
         s)).

Definition active_trackers : M (list tracklet) :=
  s ← get;
  ret (filter (fun t => is_active t = true) (trackers s)).

Definition all_trackers : M (list tracklet) :=
  s ← get;
  ret (trackers s ++ stale_trackers s).

(** The three loops of [step]: matched trackers are corrected, detections
    without a match create trackers, trackers without a match are aged. *)
Definition match_and_update (detections : list Detection) : M unit :=
  s ← get;
  let matches := matching_fn (trackers s) detections in
  modify (set_detections_matched_ids (replicate (length detections) None));;
  for_each matches (apply_match detections);;
  let assigned_det_idxs := matches.*2 in
  for_each (unassigned_indices (length detections) assigned_det_idxs)
           (create_tracker detections);;
  let assigned_track_idxs := matches.*1 in
  s ← get;
  for_each (unassigned_indices (length (trackers s)) assigned_track_idxs)
           (fun track_idx => update_tracker track_idx None).

Definition step (detections : list Detection) : M (list tracklet) :=
  match_and_update detections;;
  cleanup_trackers;;
  modify (fun s => set_current_step (S (current_step s)) s);;
  active_trackers.

(** [track]: [step] on the detections of every frame, in order; the camera,
    the detector and the embedder deliver them. *)
Definition track (frames : list (list Detection)) : M unit :=
  for_each frames (fun detections => step detections;; mret tt).

End Orchestrator.

(** *** Concrete collaborators

    Detections are numbers, no tracklet is invalid, a tracklet is active
    when it is not stale, index sets are visited in ascending order; three
    matching strategies. *)
Module Sample.

Definition is_invalid (t : Tracklet.t Z) : bool := false.

Definition is_active (t : Tracklet.t Z) : bool := negb (Tracklet.is_stale t).

Definition ascending (l : list nat) : list nat := l.

(** The strategy that never pairs anything. *)
Definition no_match (trackers : list (Tracklet.t Z)) (detections : list Z)
    : list (nat * nat) := [].

(** The strategy that pairs tracker [i] with detection [i]. *)
Definition by_position (trackers : list (Tracklet.t Z)) (detections : list Z)
    : list (nat * nat) :=
  map (fun i => (i, i)) (seq 0 (Nat.min (length trackers) (length detections))).


Definition step (matching_fn : list (Tracklet.t Z) -> list Z -> list (nat * nat))
    : list Z -> M (list (Tracklet.t Z)) :=
  step matching_fn is_invalid is_active ascending.

(** The state after one frame with the single detection [5], from a fresh
    orchestrator whose tracklets tolerate two misses: one live tracker. *)
Definition one_tracker : @MultiObjectTracker Z :=
  fst (step no_match [5] (init 2)).

End Sample.
End TrackingModel.

(** * Running a loop one iteration at a time *)
Section Loops.
Context {St A : Type}.
Implicit Types (body : A -> Py.M St unit) (l : list A) (s : St).

Lemma for_each_cons_ret body x l s s' :
  body x s = (s', Ret tt) ->
  for_each (x :: l) body s = for_each l body s'.
Proof. intros H. simpl. unfold mbind, M_bind, bind. by rewrite H. Qed.

Lemma for_each_cons_raise body x l s s' e :
  body x s = (s', Raise e) ->
  for_each (x :: l) body s = (s', Raise e).
Proof. intros H. simpl. unfold mbind, M_bind, bind. by rewrite H. Qed.


End Loops.

(** * In-place updates through a list of indices *)
Section AlterAll.
Context {A : Type}.
Implicit Types (f : A -> A) (l : list nat) (h : list A) (r : nat).

(** [f] applied, in order, to the objects a list of indices points to: what
    a loop of in-place mutations does to a store or a list of objects. *)
Definition alter_all f l h : list A :=
  foldl (fun h r => alter f r h) h l.

Lemma alter_all_length f l h : length (alter_all f l h) = length h.
Proof.
  revert h. induction l as [|r l IH]; intros h; simpl; [done|].
  unfold alter_all in *. simpl. rewrite IH. apply length_alter.
Qed.

Lemma alter_all_notin f l h r : r ∉ l -> alter_all f l h !! r = h !! r.
Proof.
  revert h. induction l as [|r' l IH]; intros h Hr; [done|].
  apply not_elem_of_cons in Hr as [Hne Hr].
  unfold alter_all in *. simpl. rewrite IH by done.
  by apply list_lookup_alter_ne.
Qed.

Lemma alter_all_once f l h r :
  NoDup l -> r ∈ l -> alter_all f l h !! r = f <$> h !! r.
Proof.
  revert h. induction l as [|r' l IH]; intros h Hnd Hr.
  - by apply elem_of_nil in Hr.
  - apply NoDup_cons in Hnd as [Hnotin Hnd].
    unfold alter_all in *. simpl.
    destruct (decide (r = r')) as [->|Hne].
    + fold (alter_all f l (alter f r' h)). rewrite alter_all_notin by done.
      apply list_lookup_alter_eq.
    + apply elem_of_cons in Hr as [?|Hr]; [done|].
      rewrite IH by done. by rewrite list_lookup_alter_ne.
Qed.

Lemma alter_all_proj {B : Type} (g : A -> B) f l h r :
  (forall t, g (f t) = g t) ->
  g <$> alter_all f l h !! r = g <$> h !! r.
Proof.
  intros Hg. revert h. induction l as [|r' l IH]; intros h; [done|].
  unfold alter_all in *. simpl. rewrite IH.
  destruct (decide (r' = r)) as [->|Hne].
  - rewrite list_lookup_alter_eq, <- option_fmap_compose.
    apply option_fmap_ext. intros t. apply Hg.
  - by rewrite list_lookup_alter_ne.
Qed.

Lemma alter_all_const {B : Type} (g : A -> B) (c : B) f l h r :
  (forall t, g (f t) = c) ->
  r ∈ l -> is_Some (h !! r) ->
  g <$> alter_all f l h !! r = Some c.
Proof.
  intros Hg. revert h. induction l as [|r' l IH]; intros h Hr Hsome.
  - by apply elem_of_nil in Hr.
  - unfold alter_all in *. simpl.
    destruct (decide (r ∈ l)) as [Hin|Hnotin].
    + apply IH; [done|].
      destruct (decide (r' = r)) as [->|Hne].
      * rewrite list_lookup_alter_eq. by apply fmap_is_Some.
      * by rewrite list_lookup_alter_ne.
    + fold (alter_all f l (alter f r' h)). rewrite alter_all_notin by done.
      apply elem_of_cons in Hr as [->|?]; [|done].
      rewrite list_lookup_alter_eq. destruct Hsome as [t ->]. simpl.
      by rewrite Hg.
Qed.

Lemma alter_all_lookup f l h r :
  NoDup l ->
  alter_all f l h !! r = if decide (r ∈ l) then f <$> h !! r else h !! r.
Proof.
  intros Hnd. destruct (decide (r ∈ l)).
  - by apply alter_all_once.
  - by apply alter_all_notin.
Qed.

End AlterAll.

(** * Properties of the ABC-based orchestrator *)
Section BaseTheory.
Import Base.
Context {Value Payload : Type}.
Variable required_observation_types : list string.
Variable required_state_types : list string.
Variable update :
  @SequenceItem Payload -> list ref -> @M Value (list ref * list ref * list ref).

Abbreviation tracklet := (Tracklet.t (gmap string Value)).
Abbreviation tracker := (@MultiObjectTracker Value).
Abbreviation process_sequence_item := (@process_sequence_item Value Payload update).

Implicit Types (s : tracker) (h : list tracklet) (r : ref) (l : list ref).

(** The counter of a tracklet, read through a reference. *)
Definition staleness_of h r : option nat := Tracklet.staleness <$> h !! r.

(** The state [process_sequence_item] starts the frame's work in: the frame
    counter is already incremented. *)
Definition bump s : tracker := set_frame_count (S (frame_count s)) s.

(** The state a frame ends in when [update] returned [(a, n, u)] in state
    [s1]: the stores after the staleness reset, the increment and the
    cleanup of the evicted tracklets, and the two lists as reassigned. *)
Definition reset_store s1 (a : list ref) : list tracklet :=
  alter_all (Tracklet.set_staleness 0) a (store s1).

Definition aged_store s1 (a u : list ref) : list tracklet :=
  alter_all (fun t => Tracklet.set_staleness (S (Tracklet.staleness t)) t) u
            (reset_store s1 a).

Definition evicted s1 (a u : list ref) : list ref :=
  filter (fun r => ref_is_stale (aged_store s1 a u) r = true) u.

Definition retained s1 (a u : list ref) : list ref :=
  filter (fun r => ref_is_stale (aged_store s1 a u) r = false) u.

Definition final_store s1 (a u : list ref) : list tracklet :=
  alter_all Tracklet.cleanup (evicted s1 a u) (aged_store s1 a u).

Definition archived s1 (a u : list ref) : list ref :=
  filter (fun r => min_length s1 <= ref_len (final_store s1 a u) r) (evicted s1 a u).

Definition frame_end s1 (a n u : list ref) : tracker :=
  mkTracker (window_size s1) (step_size s1) (max_staleness s1) (min_length s1)
            (a ++ n ++ retained s1 a u)
            (dead_tracklets s1 ++ archived s1 a u)
            (frame_count s1)
            (final_store s1 a u).

(** A tracklet is matched in a frame when [update] returns it among the
    assigned tracklets (and not among the unassigned ones). *)
Definition matched_in (item : @SequenceItem Payload) s r : Prop :=
  is_batched item = false /\
  exists s1 a n u,
    update item (alive_tracklets s) (bump s) = (s1, Ret (a, n, u)) /\
    r ∈ a /\ (r ∉ u) /\ is_Some (store s1 !! r).

(** A tracklet is missed in a frame when it is live and [update] returns it
    once among the unassigned tracklets, its counter untouched. *)
Definition missed_in (item : @SequenceItem Payload) s r : Prop :=
  is_batched item = false /\
  r ∈ alive_tracklets s /\
  exists s1 a n u,
    update item (alive_tracklets s) (bump s) = (s1, Ret (a, n, u)) /\
    (r ∉ a) /\ r ∈ u /\ NoDup u /\
    staleness_of (store s1) r = staleness_of (store s) r.

(** Consecutive frames in each of which the tracklet is missed. *)
Inductive missed_run r : tracker -> list (@SequenceItem Payload) -> tracker -> Prop :=
| missed_run_nil s : missed_run r s [] s
| missed_run_cons s item s' items s'' :
    missed_in item s r ->
    process_sequence_item item s = (s', Ret tt) ->
    missed_run r s' items s'' ->
    missed_run r s (item :: items) s''.

Lemma for_each_mutate f l s :
  for_each l (fun r => mutate r f) s = (set_store (alter_all f l (store s)) s, Ret tt).
Proof.
  revert s. induction l as [|r l IH]; intros s.
  - destruct s; reflexivity.
  - simpl. unfold mbind, M_bind, bind. simpl. rewrite IH. destruct s; reflexivity.
Qed.

Lemma ref_is_stale_proj h r :
  ref_is_stale h r = default false (Tracklet.is_stale <$> h !! r).
Proof. unfold ref_is_stale. by destruct (h !! r). Qed.

Lemma ref_len_proj h r :
  ref_len h r = default 0 ((fun t => Z.of_nat (Tracklet.len t)) <$> h !! r).
Proof. unfold ref_len. by destruct (h !! r). Qed.

Lemma cleanup_keeps_stale l h r :
  ref_is_stale (alter_all Tracklet.cleanup l h) r = ref_is_stale h r.
Proof. rewrite !ref_is_stale_proj. by rewrite alter_all_proj. Qed.

Lemma cleanup_keeps_len l h r :
  ref_len (alter_all Tracklet.cleanup l h) r = ref_len h r.
Proof. rewrite !ref_len_proj. by rewrite alter_all_proj. Qed.

(** What [process_sequence_item] does, by the outcome of [update]. *)
Lemma process_sequence_item_batched item s :
  is_batched item = true ->
  process_sequence_item item s = (bump s, Raise NotImplementedError_batched).
Proof.
  intros Hb. unfold Base.process_sequence_item, mbind, M_bind, bind. simpl.
  by rewrite Hb.
Qed.

Lemma process_sequence_item_raises item s s1 e :
  is_batched item = false ->
  update item (alive_tracklets s) (bump s) = (s1, Raise e) ->
  process_sequence_item item s = (s1, Raise e).
Proof.
  intros Hb Hu. unfold Base.process_sequence_item, mbind, M_bind, bind. simpl.
  rewrite Hb. fold (bump s). by rewrite Hu.
Qed.

Lemma process_sequence_item_returns item s s1 a n u :
  is_batched item = false ->
  update item (alive_tracklets s) (bump s) = (s1, Ret (a, n, u)) ->
  process_sequence_item item s = (frame_end s1 a n u, Ret tt).
Proof.
  intros Hb Hu. unfold Base.process_sequence_item, mbind, M_bind, bind. simpl.
  rewrite Hb. fold (bump s). rewrite Hu.
  unfold reset_staleness, increment_staleness, separate_stale_tracklets,
    cleanup_tracklets, mbind, M_bind, bind.
  rewrite !for_each_mutate. simpl. rewrite !for_each_mutate. simpl.
  rewrite !for_each_mutate. simpl. reflexivity.
Qed.

Lemma process_sequence_item_unfold item s :
  process_sequence_item item s
  = if is_batched item then (bump s, Raise NotImplementedError_batched)
    else match update item (alive_tracklets s) (bump s) with
         | (s1, Ret (a, n, u)) => (frame_end s1 a n u, Ret tt)
         | (s1, Raise e) => (s1, Raise e)
         end.
Proof.
  destruct (is_batched item) eqn:Hb.
  - by apply process_sequence_item_batched.
  - destruct (update item (alive_tracklets s) (bump s)) as [s1 [[[a n] u]|e]] eqn:Hu.
    + by apply process_sequence_item_returns.
    + by apply process_sequence_item_raises.
Qed.

(** Matched and newly created tracklets are not stale once the staleness
    of the frame is settled, when staleness bounds are non-negative. *)
Lemma assigned_not_stale s1 a u r :
  NoDup a -> r ∈ a -> r ∉ u ->
  (forall r t, store s1 !! r = Some t -> 0 <= Tracklet.max_staleness t) ->
  ref_is_stale (aged_store s1 a u) r = false.
Proof.
  intros Hnd Ha Hu Hmax. unfold ref_is_stale, aged_store, reset_store.
  rewrite alter_all_notin by done. rewrite alter_all_once by done.
  destruct (store s1 !! r) as [t|] eqn:Ht; simpl; [|done].
  unfold Tracklet.is_stale. simpl. apply Hmax in Ht. apply Z.ltb_ge. lia.
Qed.

Lemma new_not_stale s1 a u r :
  r ∉ a -> r ∉ u ->
  (forall r t, store s1 !! r = Some t -> 0 <= Tracklet.max_staleness t) ->
  (forall t, store s1 !! r = Some t -> Tracklet.staleness t = 0%nat) ->
  ref_is_stale (aged_store s1 a u) r = false.
Proof.
  intros Ha Hu Hmax Hnew. unfold ref_is_stale, aged_store, reset_store.
  rewrite !alter_all_notin by done.
  destruct (store s1 !! r) as [t|] eqn:Ht; [|done].
  unfold Tracklet.is_stale. rewrite (Hnew t eq_refl). apply Hmax in Ht.
  apply Z.ltb_ge. lia.
Qed.

(** C2. A tracklet that is stale once the staleness of a frame is settled
    is removed from the live tracklets by the cleanup of that frame; it is
    among the dead tracklets exactly when its length is at least
    [min_length], and otherwise in neither list.  [update] classifies every
    tracklet once, staleness bounds are non-negative, new tracklets are
    fresh, live tracklets are not already dead. *)
Theorem stale_tracklet_is_evicted item s s1 a n u s' r :
  is_batched item = false ->
  update item (alive_tracklets s) (bump s) = (s1, Ret (a, n, u)) ->
  process_sequence_item item s = (s', Ret tt) ->
  NoDup (a ++ n ++ u) ->
  (forall r t, store s1 !! r = Some t -> 0 <= Tracklet.max_staleness t) ->
  (forall r t, r ∈ n -> store s1 !! r = Some t -> Tracklet.staleness t = 0%nat) ->
  r ∈ a ++ n ++ u ->
  r ∉ dead_tracklets s1 ->
  ref_is_stale (store s') r = true ->
  (r ∉ alive_tracklets s') /\
  (r ∈ dead_tracklets s' <-> min_length s' <= ref_len (store s') r).
Proof.
  intros Hb Hu Hrun Hnd Hmax Hnew Hin Hdead Hstale.
  rewrite (process_sequence_item_returns _ _ _ _ _ _ Hb Hu) in Hrun.
  injection Hrun as <-. simpl in *.
  unfold final_store in Hstale. rewrite cleanup_keeps_stale in Hstale.
  apply NoDup_app in Hnd as (Hnda & Hdisj_a & Hnd).
  apply NoDup_app in Hnd as (Hndn & Hdisj_n & Hndu).
  assert (Hru : r ∈ u).
  { rewrite !elem_of_app in Hin. destruct Hin as [Ha|[Hn|?]]; [| |done].
    - pose proof (Hdisj_a r Ha) as Hnot. rewrite elem_of_app in Hnot.
      rewrite assigned_not_stale in Hstale by (done || tauto). done.
    - assert (r ∉ a) as Hna.
      { intros Ha. apply (Hdisj_a r Ha). rewrite elem_of_app. tauto. }
      rewrite new_not_stale in Hstale; [done|done|by apply Hdisj_n|done|].
      intros t. by apply Hnew. }
  assert (Hra : r ∉ a).
  { intros Ha. apply (Hdisj_a r Ha). rewrite elem_of_app. tauto. }
  assert (Hrn : r ∉ n).
  { intros Hn. by apply (Hdisj_n r Hn). }
  split.
  - rewrite !elem_of_app. intros [?|[?|Hret]]; [done|done|].
    unfold retained in Hret. apply list_elem_of_filter in Hret as [Hret _].
    congruence.
  - rewrite elem_of_app. unfold archived.
    rewrite list_elem_of_filter. unfold evicted at 1.
    rewrite list_elem_of_filter. tauto.
Qed.

Lemma matched_frame_resets item s s' r :
  matched_in item s r ->
  process_sequence_item item s = (s', Ret tt) ->
  staleness_of (store s') r = Some 0%nat.
Proof.
  intros (Hb & s1 & a & n & u & Hu & Ha & Hnu & Hsome) Hrun.
  rewrite (process_sequence_item_returns _ _ _ _ _ _ Hb Hu) in Hrun.
  injection Hrun as <-. simpl. unfold staleness_of, final_store.
  rewrite alter_all_proj by done. unfold aged_store.
  rewrite alter_all_notin by done. unfold reset_store.
  by apply alter_all_const.
Qed.

Lemma missed_frame_increments item s s' r :
  missed_in item s r ->
  process_sequence_item item s = (s', Ret tt) ->
  staleness_of (store s') r = S <$> staleness_of (store s) r.
Proof.
  intros (Hb & Hlive & s1 & a & n & u & Hu & Hna & Hin & Hnd & Hkeep) Hrun.
  rewrite (process_sequence_item_returns _ _ _ _ _ _ Hb Hu) in Hrun.
  injection Hrun as <-. simpl. rewrite <- Hkeep.
  unfold staleness_of, final_store.
  rewrite alter_all_proj by done. unfold aged_store.
  rewrite alter_all_once by done. unfold reset_store.
  rewrite alter_all_notin by done.
  by destruct (store s1 !! r).
Qed.

Lemma missed_run_adds r s items s' :
  missed_run r s items s' ->
  staleness_of (store s') r
  = (fun k => (k + length items)%nat) <$> staleness_of (store s) r.
Proof.
  induction 1 as [s|s item s' items s'' Hmiss Hrun _ IH].
  - simpl. destruct (staleness_of (store s) r) as [k|]; simpl; [|done].
    f_equal. lia.
  - rewrite IH, (missed_frame_increments _ _ _ _ Hmiss Hrun).
    destruct (staleness_of (store s) r) as [k|]; simpl; [|done].
    f_equal. lia.
Qed.

(** C3. Immediately after a frame in which a tracklet is matched its
    staleness is 0, and after [k] further consecutive frames in which it is
    live and missed its staleness is exactly [k]. *)
Theorem staleness_counts_missed_frames item items s s1 s2 r :
  matched_in item s r ->
  process_sequence_item item s = (s1, Ret tt) ->
  missed_run r s1 items s2 ->
  staleness_of (store s1) r = Some 0%nat /\
  staleness_of (store s2) r = Some (length items).
Proof.
  intros Hmatch Hrun Hmissed.
  pose proof (matched_frame_resets _ _ _ _ Hmatch Hrun) as H0.
  split; [done|].
  rewrite (missed_run_adds _ _ _ _ Hmissed), H0. done.
Qed.

(** The registration loops of [create_tracklet] mutate one object. *)
Lemma for_each_mutate_one {A : Type} (f : A -> tracklet -> tracklet) (xs : list A) r s :
  for_each xs (fun x => mutate r (f x)) s
  = (set_store (foldl (fun h x => alter (f x) r h) (store s) xs) s, Ret tt).
Proof.
  revert s. induction xs as [|x xs IH]; intros s.
  - destruct s; reflexivity.
  - simpl. unfold mbind, M_bind, bind. simpl. rewrite IH. destruct s; reflexivity.
Qed.

Lemma mutate_one_other {A : Type} (f : A -> tracklet -> tracklet) (xs : list A) r r' h :
  r <> r' -> foldl (fun h x => alter (f x) r h) h xs !! r' = h !! r'.
Proof.
  intros Hne. revert h. induction xs as [|x xs IH]; intros h; [done|].
  simpl. rewrite IH. by apply list_lookup_alter_ne.
Qed.

Lemma check_raises (states : gmap string Value) s :
  missing_types required_observation_types states <> [] ->
  _check_required_observations required_observation_types states s
  = (s, Raise (ValueError_missing_types
                 (missing_types required_observation_types states)
                 required_observation_types)).
Proof.
  intros Hm. unfold _check_required_observations.
  by destruct (missing_types required_observation_types states).
Qed.

(** C4 (as amended). A state dictionary that omits a required observation
    type makes [update_tracklet] raise before the tracklet is touched, and
    makes [create_tracklet] raise with the lists, the frame counter and
    every existing tracklet untouched; an error raised inside [update] leaves
    [process_sequence_item] in the state [update] reached, which was started
    from the already incremented frame counter: the lists of the tracker are
    not reassigned, nothing [update] did before the error is undone. *)
Theorem missing_observation_raises (states : gmap string Value) tr item s s1 e :
  missing_types required_observation_types states <> [] ->
  is_batched item = false ->
  update item (alive_tracklets s) (bump s) = (s1, Raise e) ->
  update_tracklet required_observation_types tr states s
  = (s, Raise (ValueError_missing_types
                 (missing_types required_observation_types states)
                 required_observation_types)) /\
  (exists s',
     create_tracklet required_observation_types required_state_types states s
     = (s', Raise (ValueError_missing_types
                     (missing_types required_observation_types states)
                     required_observation_types)) /\
     alive_tracklets s' = alive_tracklets s /\
     dead_tracklets s' = dead_tracklets s /\
     frame_count s' = frame_count s /\
     forall r, (r < length (store s))%nat -> store s' !! r = store s !! r) /\
  process_sequence_item item s = (s1, Raise e) /\
  frame_count (bump s) = S (frame_count s).
Proof.
  intros Hm Hb Hu. split; [|split; [|split]].
  - unfold update_tracklet, mbind, M_bind, bind. by rewrite check_raises.
  - unfold create_tracklet, mbind, M_bind, bind, alloc_tracklet.
    simpl. rewrite !for_each_mutate_one. simpl.
    rewrite check_raises by done. eexists. split; [reflexivity|]. simpl.
    repeat split. intros r Hr.
    rewrite !mutate_one_other by lia. by apply lookup_app_l.
  - by apply process_sequence_item_raises.
  - reflexivity.
Qed.

(** C5 (as amended). A batched item makes [process_sequence_item] raise
    after the frame counter was incremented and before anything else
    happened: [update] is not called, the lists and the store are as they
    were.  A source that is not iterable makes [track] raise with the state
    untouched. *)
Theorem invalid_input_raises item s :
  is_batched item = true ->
  process_sequence_item item s = (bump s, Raise NotImplementedError_batched) /\
  frame_count (bump s) = S (frame_count s) /\
  alive_tracklets (bump s) = alive_tracklets s /\
  dead_tracklets (bump s) = dead_tracklets s /\
  store (bump s) = store s /\
  track update SrcNotIterable s = (s, Raise ValueError_not_iterable).
Proof.
  intros Hb. split; [by apply process_sequence_item_batched|].
  repeat split.
Qed.


(** C10. The constructor stores the given [step_size] when it is truthy
    and [window_size] otherwise; [step_size=0] yields [window_size]. *)
Theorem init_step_size (window_size : Z) (step_size : option Z)
    (max_staleness min_length : Z) :
  Base.step_size (@init Value window_size step_size max_staleness min_length)
  = (if truthy step_size then default window_size step_size else window_size) /\
  Base.step_size (@init Value window_size (Some 0) max_staleness min_length)
  = window_size /\
  Base.step_size (@init Value window_size None max_staleness min_length)
  = window_size /\
  Base.window_size (@init Value window_size step_size max_staleness min_length)
  = window_size.
Proof.
  repeat split. destruct step_size as [z|]; [|done].
  simpl. by destruct (z =? 0).
Qed.

End BaseTheory.

(** * Properties of the motpy-style orchestrator *)
Section TrackingTheory.
Import TrackingModel.
Context {Detection : Type}.
Variable matching_fn : list (Tracklet.t Detection) -> list Detection -> list (nat * nat).
Variable is_invalid : Tracklet.t Detection -> bool.
Variable is_active : Tracklet.t Detection -> bool.
Variable set_order : list nat -> list nat.

(** Whatever the order in which a set is visited, it visits its elements. *)
Hypothesis set_order_perm : forall l, Permutation (set_order l) l.

Abbreviation tracklet := (Tracklet.t Detection).
Abbreviation tracker := (@MultiObjectTracker Detection).
Abbreviation match_and_update := (@match_and_update Detection matching_fn set_order).
Abbreviation step := (@step Detection matching_fn is_invalid is_active set_order).

Implicit Types (s : tracker) (trs : list tracklet) (dets : list Detection).
Implicit Types (matches : list (nat * nat)) (idxs : list nat).

(** A match whose two indices exist. *)
Definition in_range trs dets (m : nat * nat) : Prop :=
  (m.1 < length trs)%nat /\ (m.2 < length dets)%nat.

(** What the loop over the matches does to the list of trackers: one
    detection update per match, in order. *)
Definition correct (step_now : nat) dets trs (m : nat * nat) : list tracklet :=
  alter (Tracklet.update (dets !! m.2) (Some step_now)) m.1 trs.

(** The miss update of the current step. *)
Definition miss (step_now : nat) (t : tracklet) : tracklet :=
  Tracklet.update None (Some step_now) t.

(** The trackers created for the detection indices [idxs], in order. *)
Definition spawned (first_id : nat) (kwargs : Z) dets idxs : list tracklet :=
  imap (fun k j => Tracklet.update (dets !! j) None (Tracklet.new (first_id + k) kwargs))
       idxs.

(** The matches that name tracker [i]. *)
Definition matches_of (i : nat) matches : list (nat * nat) :=
  filter (fun m => m.1 = i) matches.

(** The trackers at the end of the three loops. *)
Definition updated_trackers s dets : list tracklet :=
  let matches := matching_fn (trackers s) dets in
  imap (fun i t => if decide (i ∈ matches.*1) then t else miss (current_step s) t)
       (foldl (correct (current_step s) dets) (trackers s) matches)
  ++ map (miss (current_step s))
         (spawned (next_id s) (tracker_kwargs s) dets
                  (unassigned_indices set_order (length dets) matches.*2)).

(** The state [step] ends in when the loops ended in [s1]. *)
Definition finish_step s1 : tracker :=
  mkTracker (tracker_kwargs s1)
            (filter (fun t => negb (Tracklet.is_stale t || is_invalid t) = true) (trackers s1))
            (stale_trackers s1 ++
             filter (fun t => Tracklet.is_stale t && negb (is_invalid t) = true) (trackers s1))
            (detections_matched_ids s1)
            (S (current_step s1))
            (next_id s1).

Lemma unassigned_indices_spec n assigned i :
  i ∈ unassigned_indices set_order n assigned <-> (i < n)%nat /\ i ∉ assigned.
Proof.
  unfold unassigned_indices. rewrite (set_order_perm _).
  rewrite list_elem_of_filter, elem_of_seq. split; intros; split; try tauto; lia.
Qed.

Lemma unassigned_indices_NoDup n assigned :
  NoDup (unassigned_indices set_order n assigned).
Proof.
  unfold unassigned_indices. rewrite (set_order_perm _).
  apply NoDup_filter, NoDup_seq.
Qed.

Lemma correct_length step_now dets trs matches :
  length (foldl (correct step_now dets) trs matches) = length trs.
Proof.
  revert trs. induction matches as [|m matches IH]; intros trs; [done|].
  simpl. rewrite IH. apply length_alter.
Qed.

(** The loop over the matches. *)
Lemma matches_loop dets matches s :
  Forall (in_range (trackers s) dets) matches ->
  length (detections_matched_ids s) = length dets ->
  exists ids,
    length ids = length dets /\
    for_each matches (apply_match (Detection:=Detection) dets) s
    = (mkTracker (tracker_kwargs s)
                 (foldl (correct (current_step s) dets) (trackers s) matches)
                 (stale_trackers s) ids (current_step s) (next_id s), Ret tt).
Proof.
  revert s. induction matches as [|[i j] matches IH]; intros s Hall Hids.
  - exists (detections_matched_ids s). split; [done|]. by destruct s.
  - apply Forall_cons in Hall as [[Hi Hj] Hall]. simpl in Hi, Hj.
    destruct (lookup_lt_is_Some_2 _ _ Hi) as [t Ht].
    destruct (lookup_lt_is_Some_2 _ _ Hj) as [d Hd].
    simpl. unfold mbind, M_bind, bind. simpl. rewrite Ht. simpl.
    unfold detection_at. rewrite Hd. simpl.
    unfold update_tracker, mbind, M_bind, bind. simpl. rewrite Ht. simpl.
    rewrite list_lookup_alter_eq, Ht. simpl.
    unfold record_match, mbind, M_bind, bind. simpl.
    rewrite decide_True by lia. simpl.
    match goal with |- context [for_each matches _ ?s'] =>
      destruct (IH s') as (ids & Hlen & ->) end.
    + simpl. eapply Forall_impl; [exact Hall|].
      intros m [? ?]. split; [|done]. by rewrite length_alter.
    + simpl. by rewrite length_insert.
    + exists ids. split; [done|]. simpl.
      replace (correct (current_step s) dets (trackers s) (i, j))
        with (alter (Tracklet.update (Some d) (Some (current_step s))) i (trackers s));
        [done|].
      unfold correct. simpl. by rewrite Hd.
Qed.

(** One iteration of the loop over the detections without a match. *)
Lemma create_tracker_returns dets j d s :
  dets !! j = Some d ->
  (j < length (detections_matched_ids s))%nat ->
  create_tracker dets j s
  = (mkTracker (tracker_kwargs s)
               (trackers s ++
                [Tracklet.update (Some d) None (Tracklet.new (next_id s) (tracker_kwargs s))])
               (stale_trackers s)
               (<[j := Some (next_id s)]> (detections_matched_ids s))
               (current_step s) (S (next_id s)), Ret tt).
Proof.
  intros Hd Hj. unfold create_tracker, mbind, M_bind, bind. simpl.
  unfold detection_at. rewrite Hd. simpl.
  unfold record_match, mbind, M_bind, bind. simpl.
  by rewrite decide_True by lia.
Qed.

(** The loop over the detections without a match. *)
Lemma create_loop dets idxs s :
  Forall (fun j => (j < length dets)%nat) idxs ->
  length (detections_matched_ids s) = length dets ->
  exists ids,
    length ids = length dets /\
    for_each idxs (create_tracker (Detection:=Detection) dets) s
    = (mkTracker (tracker_kwargs s)
                 (trackers s ++ spawned (next_id s) (tracker_kwargs s) dets idxs)
                 (stale_trackers s) ids (current_step s)
                 (next_id s + length idxs), Ret tt).
Proof.
  revert s. induction idxs as [|j idxs IH]; intros s Hall Hids.
  - exists (detections_matched_ids s). split; [done|]. simpl.
    rewrite app_nil_r, Nat.add_0_r. by destruct s.
  - apply Forall_cons in Hall as [Hj Hall].
    destruct (lookup_lt_is_Some_2 _ _ Hj) as [d Hd].
    rewrite (for_each_cons_ret _ _ _ _ _ (create_tracker_returns dets j d s Hd ltac:(lia))).
    match goal with |- context [for_each idxs _ ?s'] =>
      destruct (IH s') as (ids & Hlen & ->) end.
    + done.
    + simpl. by rewrite length_insert.
    + exists ids. split; [done|]. simpl. rewrite <- app_assoc. simpl.
      replace (S (next_id s + length idxs))%nat
        with (next_id s + S (length idxs))%nat by lia.
      do 3 f_equal. unfold spawned. simpl. rewrite Hd, Nat.add_0_r. simpl.
      f_equal. apply imap_ext. intros k x _. simpl.
      do 2 f_equal. lia.
Qed.

(** One iteration of the loop over the trackers without a match. *)
Lemma update_tracker_returns i (detection : option Detection) s :
  (i < length (trackers s))%nat ->
  update_tracker i detection s
  = (set_trackers
       (alter (Tracklet.update detection (Some (current_step s))) i (trackers s)) s,
     Ret tt).
Proof.
  intros Hi. destruct (lookup_lt_is_Some_2 _ _ Hi) as [t Ht].
  unfold update_tracker, mbind, M_bind, bind. simpl. by rewrite Ht.
Qed.

(** The loop over the trackers without a match. *)
Lemma age_loop idxs s :
  Forall (fun i => (i < length (trackers s))%nat) idxs ->
  for_each idxs (fun i => update_tracker (Detection:=Detection) i None) s
  = (set_trackers (alter_all (miss (current_step s)) idxs (trackers s)) s, Ret tt).
Proof.
  revert s. induction idxs as [|i idxs IH]; intros s Hall.
  - by destruct s.
  - apply Forall_cons in Hall as [Hi Hall].
    rewrite (for_each_cons_ret (fun i => update_tracker i None) i idxs s _
               (update_tracker_returns i None s Hi)).
    rewrite IH.
    + by destruct s.
    + simpl. eapply Forall_impl; [exact Hall|].
      intros k Hk. simpl in Hk. by rewrite length_alter.
Qed.

(** The three loops of [step], for a matching result whose indices exist:
    they never raise, and end in [updated_trackers]. *)
Lemma match_and_update_spec dets s :
  Forall (in_range (trackers s) dets) (matching_fn (trackers s) dets) ->
  exists ids,
    length ids = length dets /\
    match_and_update dets s
    = (mkTracker (tracker_kwargs s) (updated_trackers s dets) (stale_trackers s)
                 ids (current_step s)
                 (next_id s + length (unassigned_indices set_order (length dets)
                                        (matching_fn (trackers s) dets).*2)),
       Ret tt).
Proof.
  intros Hall. unfold TrackingModel.match_and_update, mbind, M_bind, bind. simpl.
  set (matches := matching_fn (trackers s) dets) in *.
  match goal with |- context [for_each matches _ ?s'] =>
    destruct (matches_loop dets matches s') as (ids1 & Hlen1 & ->) end.
  { done. }
  { simpl. by rewrite length_replicate. }
  simpl.
  match goal with |- context [for_each (unassigned_indices _ _ _) _ ?s'] =>
    destruct (create_loop dets (unassigned_indices set_order (length dets) matches.*2) s')
      as (ids2 & Hlen2 & ->) end.
  { apply Forall_forall. intros j Hj. by apply unassigned_indices_spec in Hj as [? _]. }
  { done. }
  simpl. rewrite age_loop.
  2:{ simpl. apply Forall_forall. intros i Hi.
      by apply unassigned_indices_spec in Hi as [? _]. }
  simpl. exists ids2. split; [done|]. do 2 f_equal. unfold set_trackers. simpl.
  f_equal. unfold updated_trackers. fold matches.
  set (T1 := foldl (correct (current_step s) dets) (trackers s) matches).
  set (new := spawned _ _ _ _).
  apply list_eq. intros i.
  rewrite alter_all_lookup by apply unassigned_indices_NoDup.
  assert (HT1 : length T1 = length (trackers s)) by apply correct_length.
  destruct (decide (i < length T1)%nat) as [Hlt|Hge].
  - rewrite !lookup_app_l by (by rewrite ?length_imap).
    rewrite list_lookup_imap.
    destruct (decide (i ∈ matches.*1)) as [Hin|Hnotin].
    + rewrite decide_False.
      * by destruct (T1 !! i).
      * rewrite unassigned_indices_spec. tauto.
    + rewrite decide_True.
      * by destruct (T1 !! i).
      * rewrite unassigned_indices_spec, length_app. split; [lia|done].
  - assert (Hnotin : i ∉ matches.*1).
    { intros Hin. apply list_elem_of_fmap in Hin as (m & -> & Hm).
      rewrite Forall_forall in Hall. destruct (Hall m Hm) as [? _]. lia. }
    rewrite !lookup_app_r by (rewrite ?length_imap; lia).
    rewrite length_imap, list_lookup_fmap.
    destruct (decide (i ∈ unassigned_indices set_order (length (T1 ++ new)) matches.*1))
      as [Hin|Hout]; [done|].
    rewrite unassigned_indices_spec, length_app in Hout.
    assert (length T1 + length new <= i)%nat as Hfar.
    { destruct (decide (i < length T1 + length new)%nat); [|lia].
      exfalso. by apply Hout. }
    rewrite (lookup_ge_None_2 new) by lia. done.
Qed.

Lemma step_unfold dets s :
  step dets s
  = match match_and_update dets s with
    | (s1, Ret _) =>
        (finish_step s1,
         Ret (filter (fun t => is_active t = true) (trackers (finish_step s1))))
    | (s1, Raise e) => (s1, Raise e)
    end.
Proof.
  unfold TrackingModel.step, mbind, M_bind, bind.
  destruct (TrackingModel.match_and_update _ _ _ _) as [s1 [[]|e]]; reflexivity.
Qed.

Lemma update_observations_app (d : option Detection) (st : option nat) (t : tracklet) :
  Tracklet.observations (Tracklet.update d st t) = Tracklet.observations t ++ [d].
Proof. by destruct d. Qed.

(** The history a tracker has after the loop over the matches: one entry
    per match that names it, in order. *)
Lemma correct_history step_now dets matches trs i t :
  trs !! i = Some t ->
  exists t1,
    foldl (correct step_now dets) trs matches !! i = Some t1 /\
    Tracklet.observations t1
    = Tracklet.observations t ++ map (fun m => dets !! m.2) (matches_of i matches).
Proof.
  revert trs t. induction matches as [|m matches IH]; intros trs t Ht.
  - exists t. split; [done|]. simpl. by rewrite app_nil_r.
  - simpl. unfold matches_of. destruct (decide (m.1 = i)) as [Hm|Hm].
    + rewrite filter_cons_True by done.
      destruct (IH (correct step_now dets trs m)
                   (Tracklet.update (dets !! m.2) (Some step_now) t))
        as (t1 & Hl & Hobs).
      { unfold correct. rewrite Hm, list_lookup_alter_eq, Ht. done. }
      exists t1. split; [done|]. rewrite Hobs, update_observations_app.
      by rewrite <- app_assoc.
    + rewrite filter_cons_False by done.
      apply IH. unfold correct. by rewrite list_lookup_alter_ne.
Qed.

Lemma matches_of_nil i matches : matches_of i matches = [] <-> i ∉ matches.*1.
Proof.
  unfold matches_of. induction matches as [|m matches IH].
  - split; [|done]. intros _. apply not_elem_of_nil.
  - destruct (decide (m.1 = i)) as [Hm|Hm].
    + rewrite filter_cons_True by done. split; [done|].
      intros Hnot. exfalso. apply Hnot. rewrite fmap_cons, Hm. apply list_elem_of_here.
    + rewrite filter_cons_False by done. rewrite IH, fmap_cons, not_elem_of_cons.
      split; [|tauto]. intros ?. split; [congruence|done].
Qed.






(** The history of a tracker that was live when the frame began, after the
    three loops: one entry per match that names it, or the miss sentinel. *)
Lemma history_after_loops dets s :
  Forall (in_range (trackers s) dets) (matching_fn (trackers s) dets) ->
  exists s1,
    match_and_update dets s = (s1, Ret tt) /\
    forall i t, trackers s !! i = Some t ->
      exists t1,
        trackers s1 !! i = Some t1 /\
        Tracklet.observations t1
        = Tracklet.observations t ++
          match matches_of i (matching_fn (trackers s) dets) with
          | [] => [None]
          | ms => map (fun m => dets !! m.2) ms
          end.
Proof.
  intros Hall. destruct (match_and_update_spec dets s Hall) as (ids & Hlen & Hrun).
  eexists. split; [exact Hrun|].
  intros i t Ht. simpl. unfold updated_trackers.
  set (matches := matching_fn (trackers s) dets) in *.
  destruct (correct_history (current_step s) dets matches _ i t Ht)
    as (t1 & Hl & Hobs).
  rewrite lookup_app_l.
  2:{ rewrite length_imap, correct_length. by apply lookup_lt_is_Some_1. }
  rewrite list_lookup_imap, Hl. simpl.
  destruct (decide (i ∈ matches.*1)) as [Hin|Hnotin].
  - exists t1. split; [done|]. rewrite Hobs.
    destruct (matches_of i matches) as [|m ms] eqn:Hms; [|done].
    by apply matches_of_nil in Hms.
  - eexists. split; [done|]. unfold miss.
    rewrite update_observations_app, Hobs.
    apply matches_of_nil in Hnotin. rewrite Hnotin. simpl.
    by rewrite app_nil_r.
Qed.


(** Under the one-to-one contract on the tracker axis, every tracker that
    was live when the frame began receives exactly one update. *)
Lemma matches_of_contract i matches :
  NoDup matches.*1 -> (length (matches_of i matches) <= 1)%nat.
Proof.
  unfold matches_of. induction matches as [|m matches IH]; intros Hnd; [simpl; lia|].
  rewrite fmap_cons in Hnd. apply NoDup_cons in Hnd as [Hnotin Hnd].
  destruct (decide (m.1 = i)) as [Hm|Hm].
  - rewrite filter_cons_True by done. rewrite Hm in Hnotin.
    apply matches_of_nil in Hnotin. unfold matches_of in Hnotin.
    rewrite Hnotin. simpl. lia.
  - rewrite filter_cons_False by done. by apply IH.
Qed.

Lemma one_update_per_live_tracker dets s :
  Forall (in_range (trackers s) dets) (matching_fn (trackers s) dets) ->
  NoDup (matching_fn (trackers s) dets).*1 ->
  exists s1,
    match_and_update dets s = (s1, Ret tt) /\
    forall i t, trackers s !! i = Some t ->
      exists t1,
        trackers s1 !! i = Some t1 /\
        length (Tracklet.observations t1) = S (length (Tracklet.observations t)).
Proof.
  intros Hall Hnd.
  destruct (history_after_loops dets s Hall) as (s1 & Hrun & Hobs).
  exists s1. split; [done|]. intros i t Ht.
  destruct (Hobs i t Ht) as (t1 & Hl & Ht1). exists t1. split; [done|].
  rewrite Ht1, length_app.
  pose proof (matches_of_contract i _ Hnd) as Hle.
  destruct (matches_of i (matching_fn (trackers s) dets)) as [|m [|m' ms]];
    simpl in *; lia.
Qed.

(** C8. When the matching strategy returns nothing, every live tracklet
    receives one miss update, and every detection creates exactly one
    tracker: the trackers created are those of the detection indices, each
    index once, in the order the set of indices is visited. *)
Theorem empty_matching_ages_and_spawns dets s :
  matching_fn (trackers s) dets = [] ->
  exists s1 order,
    Permutation order (seq 0 (length dets)) /\
    match_and_update dets s = (s1, Ret tt) /\
    trackers s1
    = map (miss (current_step s)) (trackers s)
      ++ map (miss (current_step s))
             (spawned (next_id s) (tracker_kwargs s) dets order) /\
    length (trackers s1) = (length (trackers s) + length dets)%nat /\
    step dets s
    = (finish_step s1,
       Ret (filter (fun t => is_active t = true) (trackers (finish_step s1)))).
Proof.
  intros Hempty.
  destruct (match_and_update_spec dets s) as (ids & Hlen & Hrun).
  { rewrite Hempty. constructor. }
  assert (Hperm : Permutation (unassigned_indices set_order (length dets) [])
                              (seq 0 (length dets))).
  { unfold unassigned_indices. rewrite (set_order_perm _).
    generalize (seq 0 (length dets)). intros l.
    induction l as [|i l IH]; [done|].
    rewrite filter_cons_True by apply not_elem_of_nil. by rewrite IH. }
  assert (Htrackers : updated_trackers s dets
    = map (miss (current_step s)) (trackers s)
      ++ map (miss (current_step s))
             (spawned (next_id s) (tracker_kwargs s) dets
                      (unassigned_indices set_order (length dets) []))).
  { unfold updated_trackers. rewrite Hempty. simpl. f_equal.
    rewrite <- imap_const. apply imap_ext. intros i t _. done. }
  eexists. exists (unassigned_indices set_order (length dets) []).
  split; [exact Hperm|]. split; [exact Hrun|]. simpl. split; [exact Htrackers|].
  split.
  - rewrite Htrackers, length_app, !length_map. unfold spawned.
    by rewrite length_imap, Hperm, length_seq.
  - by rewrite step_unfold, Hrun.
Qed.

(** A tracker created in a frame is aged in that same frame: after its
    detection update it receives the miss update of the last loop. *)
Lemma created_tracker_is_aged dets s :
  Forall (in_range (trackers s) dets) (matching_fn (trackers s) dets) ->
  exists s1,
    match_and_update dets s = (s1, Ret tt) /\
    forall k j,
      unassigned_indices set_order (length dets) (matching_fn (trackers s) dets).*2 !! k
      = Some j ->
      exists t,
        trackers s1 !! (length (trackers s) + k)%nat = Some t /\
        Tracklet.observations t = [dets !! j; None] /\
        is_Some (dets !! j) /\
        Tracklet.staleness t = 1%nat.
Proof.
  intros Hall. destruct (match_and_update_spec dets s Hall) as (ids & Hlen & Hrun).
  eexists. split; [exact Hrun|]. intros k j Hk. simpl. unfold updated_trackers.
  rewrite lookup_app_r by (rewrite length_imap, correct_length; lia).
  rewrite length_imap, correct_length.
  replace (length (trackers s) + k - length (trackers s))%nat with k by lia.
  rewrite list_lookup_fmap. unfold spawned. rewrite list_lookup_imap, Hk. simpl.
  assert (j < length dets)%nat as Hj.
  { apply list_elem_of_lookup_2 in Hk. by apply unassigned_indices_spec in Hk as [? _]. }
  destruct (lookup_lt_is_Some_2 _ _ Hj) as [d Hd].
  eexists. split; [reflexivity|]. rewrite Hd. simpl. by eauto.
Qed.

End TrackingTheory.

(** * The step counter of the two orchestrators *)
Section StepCounter.
Context {Detection Value Payload : Type}.
Variable matching_fn : list (Tracklet.t Detection) -> list Detection -> list (nat * nat).
Variable is_invalid : Tracklet.t Detection -> bool.
Variable is_active : Tracklet.t Detection -> bool.
Variable set_order : list nat -> list nat.
Variable update :
  @Base.SequenceItem Payload -> list nat ->
  @Base.M Value (list nat * list nat * list nat).


End StepCounter.

(** * The orchestrators on concrete frames *)
Section Examples.
Import Base.Sample.

Example range_forward : py_range 0 5 2 = Some [0; 2; 4].
Proof. reflexivity. Qed.

Example range_backward : py_range 0 (-2) (-1) = Some [0; -1].
Proof. reflexivity. Qed.

Example range_zero_step : py_range 0 5 0 = None.
Proof. reflexivity. Qed.

Example slice_from_the_end : py_slice [10; 20; 30] (-2) 5 = [20; 30].
Proof. reflexivity. Qed.

Example squeeze_single_frame : squeeze [1; 720; 1280; 3]%nat = [720; 1280; 3]%nat.
Proof. reflexivity. Qed.

Lemma ascending_perm (l : list nat) : Permutation (TrackingModel.Sample.ascending l) l.
Proof. reflexivity. Qed.

(** C1 (the code at the failing input). One frame, no tracker yet, one
    detection, no match: the tracker the frame creates receives its
    detection update and, in the same frame, the miss update of the loop
    over the trackers without a match; it ends the frame with two history
    entries and staleness 1. *)
Theorem created_tracker_updated_twice :
  let s' := fst (TrackingModel.Sample.step TrackingModel.Sample.no_match [7]
                   (TrackingModel.init 2)) in
  map Tracklet.observations (TrackingModel.trackers s') = [[Some 7; None]] /\
  map Tracklet.staleness (TrackingModel.trackers s') = [1%nat] /\
  TrackingModel.detections_matched_ids s' = [Some 0%nat].
Proof. vm_compute. done. Qed.

(** A tracklet that tolerates no miss is created, then missed: it is stale,
    leaves the live tracklets and, one entry long, is archived. *)
Lemma stale_tracklet_is_evicted_witness :
  let s := run_frames [frame [det 1 90]] (start 0 1) in
  let s' := fst (Base.process_sequence_item update (frame []) s) in
  (0%nat ∉ Base.alive_tracklets s') /\
  (0%nat ∈ Base.dead_tracklets s'
   <-> Base.min_length s' <= Base.ref_len (Base.store s') 0%nat).
Proof.
  intros s s'.
  apply (stale_tracklet_is_evicted update (frame []) s (bump s) [] [] [0%nat] s' 0%nat).
  - reflexivity.
  - vm_compute. reflexivity.
  - vm_compute. reflexivity.
  - simpl. apply NoDup_singleton.
  - intros r t Hr. destruct r as [|r]; vm_compute in Hr; [|discriminate].
    injection Hr as <-. simpl. lia.
  - intros r t Hr. by apply elem_of_nil in Hr.
  - simpl. apply list_elem_of_here.
  - vm_compute. apply not_elem_of_nil.
  - vm_compute. reflexivity.
Defined.

(** A tracklet is created, matched in the next frame, then missed in two
    frames: staleness 0, then 2. *)
Lemma staleness_counts_missed_frames_witness :
  let s := run_frames [frame [det 1 90]] (start 5 1) in
  let s1 := run_frames [frame [det 2 80]] s in
  let s2 := run_frames [frame []; frame []] s1 in
  staleness_of (Base.store s1) 0%nat = Some 0%nat /\
  staleness_of (Base.store s2) 0%nat = Some 2%nat.
Proof.
  intros s s1 s2.
  apply (staleness_counts_missed_frames update (frame [det 2 80])
           [frame []; frame []] s s1 s2 0%nat).
  - split; [reflexivity|].
    exists s1, [0%nat], [], []. split; [vm_compute; reflexivity|].
    split; [apply list_elem_of_here|]. split; [apply not_elem_of_nil|].
    vm_compute. eexists. reflexivity.
  - vm_compute. reflexivity.
  - apply (missed_run_cons update 0%nat s1 (frame []) (run_frames [frame []] s1)).
    + split; [reflexivity|]. split; [vm_compute; apply list_elem_of_here|].
      exists (bump s1), [], [], [0%nat]. split; [vm_compute; reflexivity|].
      split; [apply not_elem_of_nil|]. split; [apply list_elem_of_here|].
      split; [apply NoDup_singleton|]. vm_compute. reflexivity.
    + vm_compute. reflexivity.
    + apply (missed_run_cons update 0%nat _ (frame []) s2).
      * split; [reflexivity|]. split; [vm_compute; apply list_elem_of_here|].
        exists (bump (run_frames [frame []] s1)), [], [], [0%nat].
        split; [vm_compute; reflexivity|].
        split; [apply not_elem_of_nil|]. split; [apply list_elem_of_here|].
        split; [apply NoDup_singleton|]. vm_compute. reflexivity.
      * vm_compute. reflexivity.
      * apply missed_run_nil.
Defined.

(** C4 (counterexample). A live tracklet is updated from the first
    detection of a frame whose second detection lacks its score: the frame
    raises the missing-observation error, yet the frame counter has advanced
    and the live tracklet keeps the entry the frame appended. *)
Lemma missing_observation_not_atomic :
  let s := run_frames [frame [det 1 90]] (start 5 5) in
  let result := Base.process_sequence_item update
                  (frame [det 2 80; det_without_score 3]) s in
  snd result = Raise (ValueError_missing_types ["score"%string]
                                               ["box"%string; "score"%string]) /\
  0%nat ∈ Base.alive_tracklets s /\
  Base.frame_count (fst result) <> Base.frame_count s /\
  Base.ref_len (Base.store (fst result)) 0%nat <> Base.ref_len (Base.store s) 0%nat /\
  fst result <> s.
Proof.
  vm_compute. split; [reflexivity|]. split; [apply list_elem_of_here|].
  repeat split; discriminate.
Qed.

(** A frame whose only detection lacks its score. *)
Lemma missing_observation_raises_witness :
  let s := start 5 5 in
  let item := frame [det_without_score 3] in
  Base.update_tracklet required_observation_types 0%nat (det_without_score 3) s
  = (s, Raise (ValueError_missing_types ["score"%string]
                                        ["box"%string; "score"%string])) /\
  snd (Base.process_sequence_item update item s)
  = Raise (ValueError_missing_types ["score"%string] ["box"%string; "score"%string]) /\
  Base.frame_count (fst (Base.process_sequence_item update item s)) = 1%nat.
Proof.
  intros s item.
  destruct (missing_observation_raises required_observation_types
              required_state_types update (det_without_score 3) 0%nat item s
              (fst (Base.process_sequence_item update item s))
              (ValueError_missing_types ["score"%string]
                                        ["box"%string; "score"%string]))
    as (Hupd & _ & Hrun & _).
  - vm_compute. discriminate.
  - reflexivity.
  - vm_compute. reflexivity.
  - split; [exact Hupd|]. rewrite Hrun. split; [reflexivity|].
    vm_compute. reflexivity.
Defined.

(** C5 (counterexample). A batch of two frames raises, and the frame
    counter has advanced. *)
Lemma batched_item_advances_counter :
  let s := start 5 5 in
  let result := Base.process_sequence_item update batch s in
  snd result = Raise NotImplementedError_batched /\
  Base.frame_count s = 0%nat /\
  Base.frame_count (fst result) = 1%nat /\
  fst result <> s.
Proof. vm_compute. repeat split. discriminate. Qed.

(** A batch and a source that cannot be iterated. *)
Lemma invalid_input_raises_witness :
  Base.process_sequence_item update batch (start 5 5)
  = (bump (start 5 5), Raise NotImplementedError_batched) /\
  Base.track update Base.SrcNotIterable (start 5 5)
  = (start 5 5, Raise ValueError_not_iterable).
Proof.
  destruct (invalid_input_raises update batch (start 5 5)) as (H1 & _ & _ & _ & _ & H2).
  - reflexivity.
  - split; [exact H1|exact H2].
Defined.

(** With a window of two frames every item of a video is a batch: [track]
    resets the tracker, and the first item raises after the counter moved. *)
Example track_batched_windows :
  let result := Base.track update video (Base.init 2 None 5 5) in
  snd result = Raise NotImplementedError_batched /\
  Base.frame_count (fst result) = 1%nat.
Proof. vm_compute. done. Qed.




(** One live tracker, two detections, no match: three trackers after the
    loops. *)
Lemma empty_matching_ages_and_spawns_witness :
  exists s1,
    TrackingModel.match_and_update TrackingModel.Sample.no_match
      TrackingModel.Sample.ascending [7; 8] TrackingModel.Sample.one_tracker
    = (s1, Ret tt) /\
    length (TrackingModel.trackers s1) = 3%nat.
Proof.
  destruct (empty_matching_ages_and_spawns TrackingModel.Sample.no_match
              TrackingModel.Sample.is_invalid TrackingModel.Sample.is_active
              TrackingModel.Sample.ascending ascending_perm
              [7; 8] TrackingModel.Sample.one_tracker)
    as (s1 & order & _ & Hrun & _ & Hlen & _).
  - reflexivity.
  - exists s1. split; [exact Hrun|exact Hlen].
Defined.


End Examples.

(** * The remaining methods of the ABC-based orchestrator *)
Module Validation.
Section CheckUpdatedState.
Context {Value : Type}.

(** What a subclass may return from its model: a dictionary, or any other
    object. *)
Inductive PyObject : Type :=
| PyDict (d : gmap string Value)
| PyOther.

(** The two [ValueError]s of [check_updated_state]; the second message
    lists the missing types only. *)
Inductive StateError : Type :=
| NotADictionary
| MissingReturnedTypes (missing : list string).

Variable required_observation_types : list string.

(** [check_updated_state(state)]: the error it raises, if any; it reads
    nothing but its argument and the required types. *)
Definition check_updated_state (state : PyObject) : option StateError :=
  match state with
  | PyOther => Some NotADictionary
  | PyDict d =>
      match filter (fun required_type => d !! required_type = None)
                   required_observation_types with
      | [] => None
      | missing => Some (MissingReturnedTypes missing)
      end
  end.

End CheckUpdatedState.
End Validation.

Section BaseMethods.
Import Base.
Context {Value Payload : Type}.
Variable required_observation_types : list string.
Variable required_state_types : list string.
Variable update :
  @SequenceItem Payload -> list ref -> @M Value (list ref * list ref * list ref).

Abbreviation tracklet := (Tracklet.t (gmap string Value)).
Abbreviation tracker := (@MultiObjectTracker Value).
Abbreviation process_sequence_item := (@process_sequence_item Value Payload update).

Implicit Types (s : tracker) (h : list tracklet) (r : ref) (l : list ref).
Implicit Types (d states : gmap string Value).

Lemma missing_types_spec d t :
  t ∈ missing_types required_observation_types d
  <-> t ∈ required_observation_types /\ d !! t = None.
Proof. unfold missing_types. rewrite list_elem_of_filter. tauto. Qed.

Lemma missing_types_nil d :
  missing_types required_observation_types d = []
  <-> forall t, t ∈ required_observation_types -> is_Some (d !! t).
Proof.
  split.
  - intros Hnil t Ht. destruct (d !! t) eqn:Hd; [by eexists|].
    assert (t ∈ missing_types required_observation_types d) as Hin
      by by apply missing_types_spec.
    rewrite Hnil in Hin. by apply elem_of_nil in Hin.
  - intros Hall. destruct (missing_types required_observation_types d) as [|t ts] eqn:Hm;
      [done|].
    assert (t ∈ missing_types required_observation_types d) as Hin
      by (rewrite Hm; apply list_elem_of_here).
    apply missing_types_spec in Hin as [Hreq Hnone].
    destruct (Hall t Hreq) as [v Hv]. congruence.
Qed.

(** The two checks of a state dictionary accept the same dictionaries:
    those that hold every required observation type.  Neither touches the
    tracker; what they report missing is exactly the required types that are
    not keys, in the order they are required. *)
Theorem required_observation_checks_agree d s :
  (_check_required_observations required_observation_types d s = (s, Ret tt)
   <-> forall t, t ∈ required_observation_types -> is_Some (d !! t)) /\
  (Validation.check_updated_state required_observation_types (Validation.PyDict d) = None
   <-> forall t, t ∈ required_observation_types -> is_Some (d !! t)) /\
  fst (_check_required_observations required_observation_types d s) = s /\
  (forall missing required,
     snd (_check_required_observations required_observation_types d s)
     = Raise (ValueError_missing_types missing required) ->
     Validation.check_updated_state required_observation_types (Validation.PyDict d)
     = Some (Validation.MissingReturnedTypes missing) /\
     missing = filter (fun t => d !! t = None) required_observation_types /\
     required = required_observation_types) /\
  Validation.check_updated_state required_observation_types (@Validation.PyOther Value)
  = Some Validation.NotADictionary.
Proof.
  rewrite <- missing_types_nil.
  unfold _check_required_observations, Validation.check_updated_state, missing_types.
  destruct (filter _ required_observation_types) as [|t ts] eqn:Hm; simpl.
  - repeat split; try done; intros; discriminate.
  - split; [split; [intros [=]|discriminate]|].
    split; [split; discriminate|]. split; [done|]. split; [|done].
    intros missing required [= <- <-]. done.
Qed.

Lemma check_returns d s :
  missing_types required_observation_types d = [] ->
  _check_required_observations required_observation_types d s = (s, Ret tt).
Proof. intros Hm. unfold _check_required_observations. by rewrite Hm. Qed.

(** With every required type present, [update_tracklet] returns the
    tracklet it was given and changes that object alone: one history entry
    more, the current frame recorded, staleness as it was.  The lists, the
    frame counter and every other object are untouched. *)
Theorem update_tracklet_appends tr states s t :
  missing_types required_observation_types states = [] ->
  store s !! tr = Some t ->
  exists s' t',
    update_tracklet required_observation_types tr states s = (s', Ret tr) /\
    store s' !! tr = Some t' /\
    Tracklet.observations t' = Tracklet.observations t ++ [Some states] /\
    Tracklet.last_updated_step t' = Some (frame_count s) /\
    Tracklet.staleness t' = Tracklet.staleness t /\
    Tracklet.id t' = Tracklet.id t /\
    (forall r, r <> tr -> store s' !! r = store s !! r) /\
    length (store s') = length (store s) /\
    alive_tracklets s' = alive_tracklets s /\
    dead_tracklets s' = dead_tracklets s /\
    frame_count s' = frame_count s.
Proof.
  intros Hm Ht. unfold update_tracklet, mbind, M_bind, bind.
  rewrite check_returns by done. simpl.
  eexists _, _. split; [reflexivity|]. simpl.
  rewrite !list_lookup_alter_eq, Ht. simpl.
  split; [reflexivity|]. simpl. repeat split.
  - intros r Hr. by rewrite !list_lookup_alter_ne.
  - by rewrite !length_alter.
Qed.

Lemma alter_last (g : tracklet -> tracklet) h t :
  alter g (length h) (h ++ [t]) = h ++ [g t].
Proof.
  induction h as [|t0 h IH]; [done|].
  change (t0 :: alter g (length h) (h ++ [t]) = t0 :: (h ++ [g t])).
  by rewrite IH.
Qed.

(** Mutating the object a fresh reference points to, once per element of a
    list, folds the mutations over the new object. *)
Lemma mutate_one_last {A : Type} (f : A -> tracklet -> tracklet) (xs : list A) h t :
  foldl (fun h' x => alter (f x) (length h) h') (h ++ [t]) xs
  = h ++ [foldl (fun t x => f x t) t xs].
Proof.
  revert t. induction xs as [|x xs IH]; intros t; cbn [foldl]; [done|].
  by rewrite alter_last, IH.
Qed.

Lemma register_observation_types_fold (xs : list string) (t : tracklet) :
  let t' := foldl (fun t x => Tracklet.register_observation_type x t) t xs in
  Tracklet.observation_types t' = Tracklet.observation_types t ++ xs /\
  Tracklet.state_types t' = Tracklet.state_types t /\
  Tracklet.observations t' = Tracklet.observations t /\
  Tracklet.staleness t' = Tracklet.staleness t /\
  Tracklet.id t' = Tracklet.id t /\
  Tracklet.max_staleness t' = Tracklet.max_staleness t /\
  Tracklet.terminal t' = Tracklet.terminal t.
Proof.
  revert t. induction xs as [|x xs IH]; intros t; simpl.
  - by rewrite app_nil_r.
  - destruct (IH (Tracklet.register_observation_type x t)) as (-> & -> & -> & -> & -> & -> & ->).
    simpl. by rewrite <- app_assoc.
Qed.

Lemma register_state_types_fold (xs : list string) (t : tracklet) :
  let t' := foldl (fun t x => Tracklet.register_state_type x t) t xs in
  Tracklet.observation_types t' = Tracklet.observation_types t /\
  Tracklet.state_types t' = Tracklet.state_types t ++ xs /\
  Tracklet.observations t' = Tracklet.observations t /\
  Tracklet.staleness t' = Tracklet.staleness t /\
  Tracklet.id t' = Tracklet.id t /\
  Tracklet.max_staleness t' = Tracklet.max_staleness t /\
  Tracklet.terminal t' = Tracklet.terminal t.
Proof.
  revert t. induction xs as [|x xs IH]; intros t; simpl.
  - by rewrite app_nil_r.
  - destruct (IH (Tracklet.register_state_type x t)) as (-> & -> & -> & -> & -> & -> & ->).
    simpl. by rewrite <- app_assoc.
Qed.

(** With every required type present, [create_tracklet] allocates one
    object and returns the reference to it: the object carries a fresh
    identifier, the staleness bound of the tracker, the required observation
    and state types in their order, and the given state as its only history
    entry, recorded at the current frame.  No existing object, neither list
    and not the frame counter is touched. *)
Theorem create_tracklet_allocates states s :
  missing_types required_observation_types states = [] ->
  exists s' t,
    create_tracklet required_observation_types required_state_types states s
    = (s', Ret (length (store s))) /\
    store s' = store s ++ [t] /\
    Tracklet.id t = length (store s) /\
    Tracklet.max_staleness t = max_staleness s /\
    Tracklet.observation_types t = required_observation_types /\
    Tracklet.state_types t = required_state_types /\
    Tracklet.observations t = [Some states] /\
    Tracklet.last_updated_step t = Some (frame_count s) /\
    Tracklet.staleness t = 0%nat /\
    Tracklet.terminal t = false /\
    alive_tracklets s' = alive_tracklets s /\
    dead_tracklets s' = dead_tracklets s /\
    frame_count s' = frame_count s.
Proof.
  intros Hm. unfold create_tracklet, mbind, M_bind, bind, alloc_tracklet. simpl.
  rewrite !for_each_mutate_one. simpl. rewrite check_returns by done. simpl.
  unfold update_tracklet, mbind, M_bind, bind.
  rewrite check_returns by done. simpl.
  rewrite !mutate_one_last, !alter_last.
  eexists _, _. split; [reflexivity|]. split; [reflexivity|]. simpl.
  set (t0 := Tracklet.new (length (store s)) (max_staleness s)).
  pose proof (register_observation_types_fold required_observation_types t0)
    as (Ho1 & Ho2 & Ho3 & Ho4 & Ho5 & Ho6 & Ho7).
  set (t1 := foldl _ t0 required_observation_types) in *.
  pose proof (register_state_types_fold required_state_types t1)
    as (Hs1 & Hs2 & Hs3 & Hs4 & Hs5 & Hs6 & Hs7).
  rewrite Hs1, Hs2, Hs3, Hs4, Hs5, Hs6, Hs7, Ho1, Ho2, Ho3, Ho4, Ho5, Ho6, Ho7.
  done.
Qed.

(** An idempotent mutation applied through a list of references changes
    each object named by the list as one application does. *)
Lemma alter_all_idempotent (f : tracklet -> tracklet) l h r :
  (forall t, f (f t) = f t) ->
  r ∈ l -> alter_all f l h !! r = f <$> h !! r.
Proof.
  intros Hf. revert h. induction l as [|r' l IH]; intros h Hr.
  - by apply elem_of_nil in Hr.
  - unfold alter_all in *. cbn [foldl].
    destruct (decide (r ∈ l)) as [Hin|Hnotin].
    + rewrite IH by done. destruct (decide (r' = r)) as [->|Hne].
      * rewrite list_lookup_alter_eq, <- option_fmap_compose.
        apply option_fmap_ext. intros t. apply Hf.
      * by rewrite list_lookup_alter_ne.
    + fold (alter_all f l (alter f r' h)). rewrite alter_all_notin by done.
      apply elem_of_cons in Hr as [->|?]; [|done].
      apply list_lookup_alter_eq.
Qed.

Lemma alter_all_fixed (f : tracklet -> tracklet) l h :
  (forall r t, r ∈ l -> h !! r = Some t -> f t = t) ->
  alter_all f l h = h.
Proof.
  revert h. induction l as [|r l IH]; intros h Hfix; [done|].
  unfold alter_all in *. cbn [foldl].
  assert (alter f r h = h) as ->.
  { apply list_eq. intros i. destruct (decide (r = i)) as [->|Hne].
    - rewrite list_lookup_alter_eq. destruct (h !! i) as [t|] eqn:Ht; [|done].
      simpl. f_equal. apply (Hfix i); [apply list_elem_of_here|done].
    - by rewrite list_lookup_alter_ne. }
  apply IH. intros r' t Hr'. apply Hfix. by apply list_elem_of_further.
Qed.

(** [cleanup_tracklets] returns, in their order, the tracklets of its
    argument that are at least [min_length] long.  It marks every tracklet
    of the argument terminal, the discarded ones too, and leaves their
    length, the other objects, the lists and the frame counter alone.  A
    second call on the result changes nothing and returns the same list. *)
Theorem cleanup_tracklets_filters l s :
  exists s',
    cleanup_tracklets l s
    = (s', Ret (filter (fun r => min_length s <= ref_len (store s) r) l)) /\
    (forall r, r ∈ l -> store s' !! r = Tracklet.cleanup <$> store s !! r) /\
    (forall r, r ∉ l -> store s' !! r = store s !! r) /\
    (forall r, ref_len (store s') r = ref_len (store s) r) /\
    alive_tracklets s' = alive_tracklets s /\
    dead_tracklets s' = dead_tracklets s /\
    frame_count s' = frame_count s /\
    min_length s' = min_length s /\
    cleanup_tracklets (filter (fun r => min_length s <= ref_len (store s) r) l) s'
    = (s', Ret (filter (fun r => min_length s <= ref_len (store s) r) l)).
Proof.
  unfold cleanup_tracklets, mbind, M_bind, bind.
  rewrite for_each_mutate. simpl.
  assert (Hfilter : filter (fun r => min_length s
                      <= ref_len (alter_all Tracklet.cleanup l (store s)) r) l
                    = filter (fun r => min_length s <= ref_len (store s) r) l).
  { apply list_filter_iff. intros r. by rewrite cleanup_keeps_len. }
  rewrite Hfilter. eexists. split; [reflexivity|]. simpl.
  split; [intros r Hr; by apply alter_all_idempotent|].
  split; [intros r Hr; by apply alter_all_notin|].
  split; [intros r; apply cleanup_keeps_len|].
  do 4 (split; [done|]).
  rewrite for_each_mutate. simpl.
  set (kept := filter (fun r => min_length s <= ref_len (store s) r) l).
  assert (Hfix : alter_all Tracklet.cleanup kept
                   (alter_all Tracklet.cleanup l (store s))
                 = alter_all Tracklet.cleanup l (store s)).
  { apply alter_all_fixed. intros r t Hr Ht.
    apply list_elem_of_filter in Hr as [_ Hr].
    rewrite alter_all_idempotent in Ht by done.
    destruct (store s !! r) as [t0|]; simpl in Ht; [|done].
    by injection Ht as <-. }
  rewrite Hfix. unfold ret.
  assert (Hkept : filter (fun r => min_length s
                    <= ref_len (alter_all Tracklet.cleanup l (store s)) r) kept
                  = kept).
  { unfold kept. rewrite list_filter_filter. apply list_filter_iff.
    intros r. rewrite cleanup_keeps_len. tauto. }
  rewrite Hkept. by destruct s.
Qed.

(** A frame loses no tracklet silently and never shrinks the archive: the
    live tracklets become the assigned, the new and the unassigned tracklets
    that are not stale, in that order; the dead tracklets keep their former
    entries in front; no object is created or deleted by the staleness
    management; and every tracklet [update] returned is live, dead, or stale
    and shorter than [min_length]. *)
Theorem frame_conserves_tracklets item s s1 a n u :
  is_batched item = false ->
  update item (alive_tracklets s) (bump s) = (s1, Ret (a, n, u)) ->
  exists s',
    process_sequence_item item s = (s', Ret tt) /\
    alive_tracklets s'
    = a ++ n ++ filter (fun r => ref_is_stale (store s') r = false) u /\
    dead_tracklets s1 `prefix_of` dead_tracklets s' /\
    length (store s') = length (store s1) /\
    frame_count s' = frame_count s1 /\
    forall r, r ∈ a ++ n ++ u ->
      r ∈ alive_tracklets s' \/ r ∈ dead_tracklets s' \/
      (ref_is_stale (store s') r = true /\ ref_len (store s') r < min_length s').
Proof.
  intros Hb Hu. exists (frame_end s1 a n u).
  split; [by apply process_sequence_item_returns|]. simpl.
  split.
  { do 2 f_equal. unfold retained. apply list_filter_iff. intros r.
    unfold final_store. by rewrite cleanup_keeps_stale. }
  split; [by apply prefix_app_r|].
  split.
  { unfold final_store, aged_store, reset_store. by rewrite !alter_all_length. }
  split; [done|].
  intros r Hr. rewrite !elem_of_app in Hr. rewrite !elem_of_app.
  destruct Hr as [?|[?|Hu']]; [tauto|tauto|].
  destruct (ref_is_stale (aged_store s1 a u) r) eqn:Hstale.
  - destruct (decide (min_length s1 <= ref_len (final_store s1 a u) r)) as [Hlen|Hlen].
    + right. left. right. unfold archived. apply list_elem_of_filter.
      split; [done|]. unfold evicted. by apply list_elem_of_filter.
    + right. right. unfold final_store at 1. rewrite cleanup_keeps_stale.
      split; [done|lia].
  - left. right. right. unfold retained. by apply list_elem_of_filter.
Qed.

(** After a frame no live tracklet is stale, provided [update] classifies
    each tracklet once, staleness bounds are non-negative and the new
    tracklets come with staleness 0. *)
Theorem live_tracklets_are_not_stale item s s1 a n u s' r :
  is_batched item = false ->
  update item (alive_tracklets s) (bump s) = (s1, Ret (a, n, u)) ->
  process_sequence_item item s = (s', Ret tt) ->
  NoDup (a ++ n ++ u) ->
  (forall r t, store s1 !! r = Some t -> 0 <= Tracklet.max_staleness t) ->
  (forall r t, r ∈ n -> store s1 !! r = Some t -> Tracklet.staleness t = 0%nat) ->
  r ∈ alive_tracklets s' ->
  ref_is_stale (store s') r = false.
Proof.
  intros Hb Hu Hrun Hnd Hmax Hnew Hlive.
  rewrite (process_sequence_item_returns _ _ _ _ _ _ _ Hb Hu) in Hrun.
  injection Hrun as <-. simpl in *.
  unfold final_store. rewrite cleanup_keeps_stale.
  apply NoDup_app in Hnd as (Hnda & Hdisj_a & Hnd).
  apply NoDup_app in Hnd as (Hndn & Hdisj_n & Hndu).
  rewrite !elem_of_app in Hlive. destruct Hlive as [Ha|[Hn|Hret]].
  - pose proof (Hdisj_a r Ha) as Hnot. rewrite elem_of_app in Hnot.
    apply assigned_not_stale; [done|done|tauto|done].
  - apply new_not_stale; [|by apply Hdisj_n|done|intros t; by apply Hnew].
    intros Ha. apply (Hdisj_a r Ha). rewrite elem_of_app. tauto.
  - unfold retained in Hret. by apply list_elem_of_filter in Hret as [? _].
Qed.

(** Every tracklet a frame evicts has had [cleanup] called on it, whether
    it is archived or discarded, and every tracklet a frame adds to the dead
    tracklets is stale and at least [min_length] long. *)
Theorem evicted_tracklets_are_finalized item s s1 a n u :
  is_batched item = false ->
  update item (alive_tracklets s) (bump s) = (s1, Ret (a, n, u)) ->
  exists s' added,
    process_sequence_item item s = (s', Ret tt) /\
    dead_tracklets s' = dead_tracklets s1 ++ added /\
    (forall r, r ∈ added ->
       r ∈ u /\ ref_is_stale (store s') r = true /\
       min_length s' <= ref_len (store s') r) /\
    (forall r, r ∈ u -> ref_is_stale (store s') r = true ->
       exists t, store s' !! r = Some t /\ Tracklet.terminal t = true).
Proof.
  intros Hb Hu. exists (frame_end s1 a n u), (archived s1 a u).
  split; [by apply process_sequence_item_returns|]. simpl.
  split; [done|]. split.
  - intros r Hr. unfold archived in Hr. apply list_elem_of_filter in Hr as [Hlen Hr].
    unfold evicted in Hr. apply list_elem_of_filter in Hr as [Hstale Hr].
    unfold final_store at 1. by rewrite cleanup_keeps_stale.
  - intros r Hr Hstale. unfold final_store in *.
    rewrite cleanup_keeps_stale in Hstale.
    assert (r ∈ evicted s1 a u) as Hev by by apply list_elem_of_filter.
    rewrite alter_all_idempotent by done.
    unfold ref_is_stale in Hstale.
    destruct (aged_store s1 a u !! r) as [t|]; [|done].
    by exists (Tracklet.cleanup t).
Qed.

End BaseMethods.

(** * The windows of [track] *)
Section Windows.
Import Base.
Context {Value Payload : Type}.
Variable update :
  @SequenceItem Payload -> list ref -> @M Value (list ref * list ref * list ref).

Abbreviation tracker := (@MultiObjectTracker Value).
Implicit Types (s : tracker) (a : @ndarray Payload).

(** [range(0, stop, step)] with a positive step: the multiples of [step]
    below [stop]. *)
Lemma py_range_forward (stop step : Z) :
  0 < step ->
  exists idxs,
    py_range 0 stop step = Some idxs /\
    length idxs = Z.to_nat (if 0 <? stop then (stop - 1) / step + 1 else 0) /\
    (forall k : nat, idxs !! k = Some (Z.of_nat k * step) \/ idxs !! k = None) /\
    forall i, i ∈ idxs -> 0 <= i < stop /\ (step | i).
Proof.
  intros Hstep. unfold py_range, range_len.
  destruct (step =? 0) eqn:Hz; [lia|].
  destruct (0 <? step) eqn:Hpos; [|lia].
  replace (stop - 0 - 1) with (stop - 1) by lia.
  eexists. split; [reflexivity|]. split; [by rewrite length_map, length_seq|].
  split.
  - intros k. rewrite list_lookup_fmap.
    destruct (seq 0 _ !! k) as [k'|] eqn:Hk; [|by right].
    left. apply lookup_seq in Hk as [-> _]. simpl. f_equal; lia.
  - intros i Hi. apply list_elem_of_fmap in Hi as (k & -> & Hk).
    apply elem_of_seq in Hk as [_ Hk]. simpl in Hk.
    destruct (0 <? stop) eqn:Hstop; [|simpl in Hk; lia].
    assert (0 <= (stop - 1) / step) by (apply Z.div_pos; lia).
    assert (Z.of_nat k <= (stop - 1) / step) as Hle by lia.
    pose proof (Z.mul_div_le (stop - 1) step Hstep) as Hdiv.
    split; [|exists (Z.of_nat k); lia].
    split; [lia|]. nia.
Qed.

Lemma py_slice_inside (l : list Payload) (i w : Z) :
  0 <= i -> 0 <= w -> i + w <= Z.of_nat (length l) ->
  py_slice l i (i + w) = take (Z.to_nat w) (drop (Z.to_nat i) l) /\
  length (py_slice l i (i + w)) = Z.to_nat w.
Proof.
  intros Hi Hw Hlen. unfold py_slice, slice_bound.
  destruct (i <? 0) eqn:Hi0; [lia|]. destruct (i + w <? 0) eqn:Hj0; [lia|].
  rewrite !Z.min_l by lia.
  replace (i + w - i) with w by lia. split; [done|].
  rewrite length_take, length_drop. lia.
Qed.

(** The windows of an array, for positive window and step sizes. *)
Lemma array_windows a s (w step : Z) :
  0 < w -> 0 < step ->
  exists idxs,
    py_range 0 (Z.of_nat (length (rows a)) - w + 1) step = Some idxs /\
    length idxs
    = Z.to_nat (if Z.of_nat (length (rows a)) <? w then 0
                else (Z.of_nat (length (rows a)) - w) / step + 1) /\
    forall i, i ∈ idxs ->
      0 <= i /\ i + w <= Z.of_nat (length (rows a)) /\ (step | i) /\
      window (Value:=Value) (SrcArray a) i w s
      = (s, Ret (ItemArray (squeeze (Z.to_nat w :: row_shape a))
                           (take (Z.to_nat w) (drop (Z.to_nat i) (rows a))))) /\
      length (take (Z.to_nat w) (drop (Z.to_nat i) (rows a))) = Z.to_nat w.
Proof.
  intros Hw Hstep.
  destruct (py_range_forward (Z.of_nat (length (rows a)) - w + 1) step Hstep)
    as (idxs & Hrange & Hlen & _ & Hin).
  exists idxs. split; [done|]. split.
  { rewrite Hlen. f_equal.
    destruct (Z.of_nat (length (rows a)) <? w) eqn:Hshort.
    - destruct (0 <? _) eqn:H0; [lia|done].
    - destruct (0 <? _) eqn:H0; [|lia]. f_equal. f_equal. lia. }
  intros i Hi. destruct (Hin i Hi) as [[Hi0 Hi1] Hdiv].
  destruct (py_slice_inside (rows a) i w) as [Hslice Hsize]; [lia..|].
  split; [done|]. split; [lia|]. split; [done|].
  unfold window. split.
  - cbv zeta. by rewrite Hsize, Hslice.
  - by rewrite <- Hslice.
Qed.

(** Every window [track] cuts out of an array is full: with positive
    window and step sizes the start indices are the multiples of the step
    that leave room for a whole window, there are
    [(len - window_size) / step_size + 1] of them when the array is long
    enough and none otherwise, and the item of each holds exactly
    [window_size] rows, with the axes of extent one squeezed out of its
    shape.  Rows after the last full window are never visited. *)
Theorem windows_are_full a s (w step : Z) :
  0 < w -> 0 < step ->
  exists idxs,
    py_range 0 (Z.of_nat (length (rows a)) - w + 1) step = Some idxs /\
    length idxs
    = Z.to_nat (if Z.of_nat (length (rows a)) <? w then 0
                else (Z.of_nat (length (rows a)) - w) / step + 1) /\
    forall i, i ∈ idxs ->
      0 <= i /\ i + w <= Z.of_nat (length (rows a)) /\ (step | i) /\
      window (Value:=Value) (SrcArray a) i w s
      = (s, Ret (ItemArray (squeeze (Z.to_nat w :: row_shape a))
                           (take (Z.to_nat w) (drop (Z.to_nat i) (rows a))))) /\
      length (take (Z.to_nat w) (drop (Z.to_nat i) (rows a))) = Z.to_nat w.
Proof. intros Hw Hstep. by apply array_windows. Qed.

Lemma track_unfold sequence s :
  is_iterable_or_array sequence = true ->
  track update sequence s
  = match frame_loop update sequence (fst (reset s)) with
    | (s1, Ret _) =>
        match final_cleanup s1 with
        | (s2, Ret _) => to_bbdf s2
        | (s2, Raise e) => (s2, Raise e)
        end
    | (s1, Raise e) => (s1, Raise e)
    end.
Proof.
  intros Hit. unfold track. rewrite Hit. simpl. unfold mbind, M_bind, bind. simpl.
  change (set_frame_count 0 (set_dead_tracklets [] (set_alive_tracklets [] s)))
    with (fst (reset s)).
  destruct (frame_loop update sequence (fst (reset s))) as [s1 [[]|e]]; [|done].
  by destruct (final_cleanup s1) as [s2 [[]|e]].
Qed.

Lemma squeeze_keeps (shape : list nat) :
  Forall (fun d => d <> 1%nat) shape -> squeeze shape = shape.
Proof.
  unfold squeeze. induction 1 as [|d shape Hd _ IH]; [done|].
  rewrite filter_cons_True by done. by rewrite IH.
Qed.

(** A window of two or more frames cannot be tracked: on an array of
    frames (three axes per frame, none of extent one) that holds at least one
    window, [track] resets the tracker and raises on the first item, with the
    frame counter at 1 and [update] never called. *)
Theorem track_wide_window_raises a s :
  2 <= window_size s <= Z.of_nat (length (rows a)) ->
  0 < step_size s ->
  length (row_shape a) = 3%nat ->
  Forall (fun d => d <> 1%nat) (row_shape a) ->
  track update (SrcArray a) s
  = (bump (fst (reset s)), Raise NotImplementedError_batched).
Proof.
  intros Hw Hstep Hrank Hshape. rewrite track_unfold by done.
  unfold frame_loop, mbind, M_bind, bind. simpl.
  set (s0 := set_frame_count 0 (set_dead_tracklets [] (set_alive_tracklets [] s))).
  destruct (array_windows a s0 (window_size s) (step_size s))
    as (idxs & Hrange & Hlen & Hwin); [lia..|].
  rewrite Hrange.
  destruct (py_range_forward (Z.of_nat (length (rows a)) - window_size s + 1)
              (step_size s) Hstep) as (idxs' & Hrange' & _ & Hnth & _).
  rewrite Hrange in Hrange'. injection Hrange' as <-.
  destruct idxs as [|i idxs].
  { exfalso. simpl in Hlen.
    destruct (Z.of_nat (length (rows a)) <? window_size s) eqn:Hshort; [lia|].
    assert (0 <= (Z.of_nat (length (rows a)) - window_size s) / step_size s)
      by (apply Z.div_pos; lia). lia. }
  destruct (Hnth 0%nat) as [Hi|Hi]; [|done]. injection Hi as ->.
  destruct (Hwin (Z.of_nat 0 * step_size s)) as (_ & _ & _ & Hitem & Hsize);
    [apply list_elem_of_here|].
  erewrite for_each_cons_raise; [reflexivity|].
  unfold mbind, M_bind, bind. simpl. fold s0.
  unfold window in Hitem. cbv zeta in Hitem. injection Hitem as -> ->.
  apply process_sequence_item_batched. simpl.
  rewrite squeeze_keeps.
  - simpl. by rewrite Hrank.
  - constructor; [lia|done].
Qed.

(** When the input is shorter than one window nothing is processed: the
    frame counter stays at 0, both lists stay empty, and the export raises
    for want of a tracklet. *)
Theorem track_without_window_raises sequence s (n : Z) :
  source_len (Value:=Value) sequence (fst (reset s)) = (fst (reset s), Ret n) ->
  n < window_size s ->
  0 < step_size s ->
  track update sequence s
  = (fst (reset s), Raise ValueError_no_objects_to_concatenate).
Proof.
  intros Hlen Hshort Hstep.
  assert (is_iterable_or_array sequence = true) as Hit
    by (by destruct sequence).
  rewrite track_unfold by done.
  unfold frame_loop, mbind, M_bind, bind. rewrite Hlen. simpl.
  destruct (py_range_forward (n - window_size s + 1) (step_size s) Hstep)
    as (idxs & Hrange & Hcount & _ & _).
  rewrite Hrange. destruct (0 <? n - window_size s + 1) eqn:Hpos; [lia|].
  destruct idxs; [|done]. simpl.
  unfold final_cleanup, cleanup_tracklets, to_bbdf, mbind, M_bind, bind. simpl.
  by destruct s.
Qed.

(** A list of frames and a generator pass the type check of [track] and
    fail right after it: the slices of a list have no [squeeze], so the first
    window raises; a generator has no [len]. The tracker has been reset. *)
Theorem track_needs_an_array (l : list Payload) s :
  0 < window_size s <= Z.of_nat (length l) ->
  0 < step_size s ->
  track update (SrcList l) s = (fst (reset s), Raise AttributeError_squeeze) /\
  track update SrcIterator s = (fst (reset s), Raise TypeError_no_len).
Proof.
  intros Hw Hstep. split; [|by rewrite track_unfold].
  rewrite track_unfold by done.
  unfold frame_loop, mbind, M_bind, bind. simpl.
  destruct (py_range_forward (Z.of_nat (length l) - window_size s + 1)
              (step_size s) Hstep) as (idxs & Hrange & Hcount & _ & _).
  rewrite Hrange. destruct idxs as [|i idxs].
  { exfalso. simpl in Hcount.
    destruct (0 <? Z.of_nat (length l) - window_size s + 1) eqn:Hpos; [|lia].
    assert (0 <= (Z.of_nat (length l) - window_size s + 1 - 1) / step_size s)
      by (apply Z.div_pos; lia). lia. }
  by erewrite for_each_cons_raise.
Qed.

(** A step size of zero makes [track] raise before any frame: [range]
    refuses it.  A tracker built with [window_size = 0] and no [step_size]
    has that step size. *)
Theorem track_zero_step_raises sequence s (n : Z) :
  source_len (Value:=Value) sequence (fst (reset s)) = (fst (reset s), Ret n) ->
  step_size s = 0 ->
  track update sequence s = (fst (reset s), Raise ValueError_range_step_zero) /\
  (forall max_staleness min_length,
     step_size (@init Value 0 None max_staleness min_length) = 0).
Proof.
  intros Hlen Hstep. split; [|done].
  assert (is_iterable_or_array sequence = true) as Hit
    by (by destruct sequence).
  rewrite track_unfold by done.
  unfold frame_loop, mbind, M_bind, bind. rewrite Hlen. simpl.
  unfold py_range. by rewrite Hstep.
Qed.

Lemma for_each_counts {A : Type} (g : tracker -> nat) (body : A -> M unit) l s s' :
  (forall x s s', body x s = (s', Ret tt) -> g s' = S (g s)) ->
  for_each l body s = (s', Ret tt) ->
  g s' = (g s + length l)%nat.
Proof.
  intros Hbody. revert s. induction l as [|x l IH]; intros s Hrun.
  - injection Hrun as <-. simpl. lia.
  - simpl in Hrun. unfold mbind, M_bind, bind in Hrun.
    destruct (body x s) as [s1 [[]|e]] eqn:Hx; [|done].
    rewrite (IH _ Hrun), (Hbody _ _ _ Hx). simpl. lia.
Qed.

Lemma final_cleanup_keeps_count s :
  frame_count (fst (final_cleanup s)) = frame_count s.
Proof.
  unfold final_cleanup, cleanup_tracklets, mbind, M_bind, bind. simpl.
  by rewrite for_each_mutate.
Qed.

Lemma to_bbdf_keeps_state s : fst (to_bbdf s) = s.
Proof.
  unfold to_bbdf, mbind, M_bind, bind. simpl.
  by destruct (alive_tracklets s ++ dead_tracklets s).
Qed.

(** A frame that is processed without an error moves the frame counter by
    one, when [update] itself leaves the counter alone. *)
Lemma processed_frame_counts item s s' :
  (forall item l s, frame_count (fst (update item l s)) = frame_count s) ->
  process_sequence_item update item s = (s', Ret tt) ->
  frame_count s' = S (frame_count s).
Proof.
  intros Hkeep Hrun. rewrite process_sequence_item_unfold in Hrun.
  destruct (is_batched item); [done|].
  pose proof (Hkeep item (alive_tracklets s) (bump s)) as Hk.
  destruct (update item (alive_tracklets s) (bump s)) as [s1 [[[a n] u]|e]];
    [|done].
  injection Hrun as <-. simpl in *. done.
Qed.

(** After a run of [track] that returns, the frame counter is the number
    of windows of the input, when [update] itself leaves the counter
    alone. *)
Theorem track_counts_windows sequence s s' exported :
  (forall item l s, frame_count (fst (update item l s)) = frame_count s) ->
  track update sequence s = (s', Ret exported) ->
  exists n idxs,
    source_len (Value:=Value) sequence (fst (reset s)) = (fst (reset s), Ret n) /\
    py_range 0 (n - window_size s + 1) (step_size s) = Some idxs /\
    frame_count s' = length idxs.
Proof.
  intros Hkeep Hrun.
  assert (is_iterable_or_array sequence = true) as Hit.
  { destruct sequence; try done. }
  rewrite track_unfold in Hrun by done.
  destruct (frame_loop update sequence (fst (reset s))) as [s1 [[]|e]] eqn:Hloop;
    [|done].
  assert (frame_count s' = frame_count s1) as ->.
  { pose proof (final_cleanup_keeps_count s1) as Hf.
    destruct (final_cleanup s1) as [s2 [[]|e]]; [|done].
    pose proof (to_bbdf_keeps_state s2) as Hb. rewrite Hrun in Hb.
    simpl in *. congruence. }
  unfold frame_loop, mbind, M_bind, bind in Hloop.
  destruct (source_len sequence (fst (reset s))) as [s0 [n|e]] eqn:Hlen; [|done].
  assert (s0 = fst (reset s)) as ->.
  { destruct sequence; simpl in Hlen; by injection Hlen. }
  simpl in Hloop.
  destruct (py_range 0 (n - window_size s + 1) (step_size s)) as [idxs|] eqn:Hrange;
    [|done].
  exists n, idxs. split; [done|]. split; [done|].
  apply (for_each_counts frame_count) in Hloop; [by rewrite Hloop|].
  intros i s2 s3 Hbody.
  destruct (window sequence i (window_size s2) s2) as [s4 [item|e]] eqn:Hwin;
    [|done].
  assert (s4 = s2) as ->.
  { destruct sequence; simpl in Hwin; by injection Hwin. }
  by apply (processed_frame_counts item).
Qed.

End Windows.

(** * The remaining methods of the motpy-style orchestrator *)
Module Dataframe.
Section ToBbdf.
Context {Detection : Type}.
Variable is_active : Tracklet.t Detection -> bool.

(** [to_bbdf]: the frames of the active trackers are concatenated first
    (and the result dropped), then those of all trackers; [pd.concat] raises
    on an empty list.  The value is the list of exported trackers, in column
    order. *)
Definition to_bbdf : @TrackingModel.M Detection (list (Tracklet.t Detection)) :=
  active ← TrackingModel.active_trackers is_active;
  match active with
  | [] => raise ValueError_no_objects_to_concatenate
  | _ =>
      all ← TrackingModel.all_trackers;
      match all with
      | [] => raise ValueError_no_objects_to_concatenate
      | _ => mret all
      end
  end.

End ToBbdf.
End Dataframe.

Section TrackingMethods.
Import TrackingModel.
Context {Detection : Type}.
Variable matching_fn : list (Tracklet.t Detection) -> list Detection -> list (nat * nat).
Variable is_invalid : Tracklet.t Detection -> bool.
Variable is_active : Tracklet.t Detection -> bool.
Variable set_order : list nat -> list nat.
Hypothesis set_order_perm : forall l, Permutation (set_order l) l.

Abbreviation tracklet := (Tracklet.t Detection).
Abbreviation tracker := (@MultiObjectTracker Detection).
Abbreviation match_and_update := (@match_and_update Detection matching_fn set_order).
Abbreviation step := (@step Detection matching_fn is_invalid is_active set_order).

Implicit Types (s : tracker) (trs : list tracklet) (dets : list Detection).
Implicit Types (matches : list (nat * nat)) (idxs : list nat) (t : tracklet).

(** A tracker that stays live: neither stale nor invalid. *)
Definition keeps t : Prop := Tracklet.is_stale t = false /\ is_invalid t = false.

Lemma filter_partition_perm (P Q : tracklet -> Prop)
    `{forall t, Decision (P t)} `{forall t, Decision (Q t)} trs :
  (forall t, ~ (P t /\ Q t)) ->
  Permutation (filter P trs ++ filter Q trs) (filter (fun t => P t \/ Q t) trs).
Proof.
  intros Hdisj. induction trs as [|t trs IH]; [done|].
  destruct (decide (P t)) as [HP|HP]; destruct (decide (Q t)) as [HQ|HQ].
  - exfalso. by apply (Hdisj t).
  - rewrite (filter_cons_True P), (filter_cons_False Q), (filter_cons_True (fun t => P t \/ Q t))
      by tauto. simpl. by rewrite IH.
  - rewrite (filter_cons_False P), (filter_cons_True Q), (filter_cons_True (fun t => P t \/ Q t))
      by tauto. rewrite <- Permutation_middle. by rewrite IH.
  - rewrite (filter_cons_False P), (filter_cons_False Q), (filter_cons_False (fun t => P t \/ Q t))
      by tauto. done.
Qed.

(** [cleanup_trackers] never raises.  Afterwards no live tracker is stale
    or invalid; the stale trackers are the former ones followed by the live
    trackers that were stale and valid, in their order; the trackers lost
    are exactly the invalid ones; the counter and the other attributes are
    untouched; and a second cleanup changes nothing. *)
Theorem cleanup_trackers_partitions s :
  exists s',
    cleanup_trackers is_invalid s = (s', Ret tt) /\
    Forall keeps (trackers s') /\
    stale_trackers s `prefix_of` stale_trackers s' /\
    Forall (fun t => Tracklet.is_stale t = true /\ is_invalid t = false)
           (drop (length (stale_trackers s)) (stale_trackers s')) /\
    Permutation (trackers s' ++ stale_trackers s')
                (stale_trackers s ++ filter (fun t => is_invalid t = false) (trackers s)) /\
    current_step s' = current_step s /\
    next_id s' = next_id s /\
    detections_matched_ids s' = detections_matched_ids s /\
    cleanup_trackers is_invalid s' = (s', Ret tt).
Proof.
  eexists. split; [reflexivity|]. simpl.
  split.
  { apply Forall_forall. intros t Ht. apply list_elem_of_filter in Ht as [Ht _].
    unfold keeps. destruct (Tracklet.is_stale t), (is_invalid t); done. }
  split; [by apply prefix_app_r|].
  split.
  { rewrite drop_app_length. apply Forall_forall. intros t Ht.
    apply list_elem_of_filter in Ht as [Ht _].
    destruct (Tracklet.is_stale t), (is_invalid t); done. }
  split.
  { rewrite (Permutation_app_comm _ (stale_trackers s ++ _)), <- app_assoc.
    apply Permutation_app_head. rewrite Permutation_app_comm.
    rewrite filter_partition_perm.
    - erewrite list_filter_iff; [done|]. intros t.
      destruct (Tracklet.is_stale t), (is_invalid t); simpl; intuition congruence.
    - intros t. destruct (Tracklet.is_stale t), (is_invalid t); simpl; intuition congruence. }
  do 3 (split; [done|]).
  unfold cleanup_trackers, modify. simpl. f_equal.
  unfold set_trackers, set_stale_trackers. simpl. f_equal.
  - rewrite list_filter_filter. apply list_filter_iff. tauto.
  - rewrite list_filter_filter.
    assert (filter (fun t => (Tracklet.is_stale t && negb (is_invalid t) = true)
                             /\ negb (Tracklet.is_stale t || is_invalid t) = true)
                   (trackers s) = []) as ->.
    { induction (trackers s) as [|t trs IH]; [done|].
      rewrite filter_cons_False; [done|].
      destruct (Tracklet.is_stale t), (is_invalid t); simpl; intuition congruence. }
    by rewrite app_nil_r.
Qed.





(** What a step that returns leaves behind. *)
Lemma step_returns_fresh dets s :
  Forall (in_range (trackers s) dets) (matching_fn (trackers s) dets) ->
  exists s' active,
    step dets s = (s', Ret active) /\
    Forall keeps (trackers s') /\
    stale_trackers s `prefix_of` stale_trackers s' /\
    current_step s' = S (current_step s) /\
    active = filter (fun t => is_active t = true) (trackers s') /\
    tracker_kwargs s' = tracker_kwargs s.
Proof.
  intros Hall.
  destruct (match_and_update_spec matching_fn set_order set_order_perm dets s Hall)
    as (ids & _ & Hrun).
  rewrite step_unfold, Hrun. eexists _, _. split; [reflexivity|]. simpl.
  split.
  { apply Forall_forall. intros t Ht. apply list_elem_of_filter in Ht as [Ht _].
    unfold keeps. destruct (Tracklet.is_stale t), (is_invalid t); done. }
  split; [by apply prefix_app_r|]. done.
Qed.

(** After a step that returns, no live tracker is stale or invalid, the
    stale trackers have only grown at their end, the counter has advanced by
    one, and the trackers returned are the live trackers that are active, in
    their order. *)
Theorem step_leaves_fresh_trackers dets s :
  Forall (in_range (trackers s) dets) (matching_fn (trackers s) dets) ->
  exists s' active,
    step dets s = (s', Ret active) /\
    Forall keeps (trackers s') /\
    stale_trackers s `prefix_of` stale_trackers s' /\
    current_step s' = S (current_step s) /\
    active = filter (fun t => is_active t = true) (trackers s') /\
    tracker_kwargs s' = tracker_kwargs s.
Proof. apply step_returns_fresh. Qed.







(** [to_bbdf] needs an active tracker: it returns the live trackers
    followed by the stale ones exactly when some live tracker is active, and
    raises otherwise, stale trackers or not.  It never changes the state. *)
Theorem to_bbdf_needs_active_tracker s :
  fst (Dataframe.to_bbdf is_active s) = s /\
  (Exists (fun t => is_active t = true) (trackers s) ->
   snd (Dataframe.to_bbdf is_active s) = Ret (trackers s ++ stale_trackers s)) /\
  (Forall (fun t => is_active t = false) (trackers s) ->
   snd (Dataframe.to_bbdf is_active s) = Raise ValueError_no_objects_to_concatenate).
Proof.
  unfold Dataframe.to_bbdf, active_trackers, all_trackers, mbind, M_bind, bind. simpl.
  destruct (filter (fun t => is_active t = true) (trackers s)) as [|t0 ts] eqn:Hact.
  - split; [done|]. split; [|done]. intros Hex. exfalso.
    apply Exists_exists in Hex as (t & Ht & Hactive).
    assert (t ∈ filter (fun t => is_active t = true) (trackers s)) as Hin
      by by apply list_elem_of_filter.
    rewrite Hact in Hin. by apply elem_of_nil in Hin.
  - assert (t0 ∈ trackers s /\ is_active t0 = true) as [Hin Hactive].
    { assert (t0 ∈ filter (fun t => is_active t = true) (trackers s)) as Hin
        by (rewrite Hact; apply list_elem_of_here).
      apply list_elem_of_filter in Hin. tauto. }
    destruct (trackers s) as [|t1 trs] eqn:Htrs; [by apply elem_of_nil in Hin|].
    simpl. split; [done|]. split; [done|].
    intros Hall. rewrite Forall_forall in Hall.
    specialize (Hall t0 Hin). congruence.
Qed.

End TrackingMethods.

(** * Suggesting hyperparameters

    The first loop of [objective] in [tune_hparams] ([mot/base.py]) and in
    [tune_motion_model] ([tracking_model/multi_object_tracker.py]): every
    entry of a search space is turned into a suggestion of the trial, by its
    type.  Dictionaries are visited in insertion order and are lists of
    entries here. *)
Module Tuning.
Section Suggest.
(** The bounds and the choices of a search space entry, and what a trial
    suggests. *)
Context {Bound Choices Param : Type}.

Record ParamSpace : Type := mkSpace {
  type : string;
  values : option Choices;
  low : option Bound;
  high : option Bound;
}.

(** The trial. *)
Variable suggest_categorical : string -> option Choices -> Param.
Variable suggest_float : string -> option Bound -> option Bound -> bool -> Param.
Variable suggest_int : string -> option Bound -> option Bound -> Param.

(** The chain of comparisons both loops share; [None] when no branch is
    taken. *)
Definition suggest (param_name : string) (space : ParamSpace) : option Param :=
  if decide (type space = "categorical"%string) then
    Some (suggest_categorical param_name (values space))
  else if decide (type space = "float"%string) then
    Some (suggest_float param_name (low space) (high space) false)
  else if decide (type space = "logfloat"%string) then
    Some (suggest_float param_name (low space) (high space) true)
  else if decide (type space = "int"%string) then
    Some (suggest_int param_name (low space) (high space))
  else None.

(** The outcome of the loop of [tune_hparams]: the parameters, or the
    [ValueError] for the type it does not know. *)
Inductive suggested (A : Type) : Type :=
| Params (params : A)
| UnknownParameterType (ty : string).
Arguments Params {A} params.
Arguments UnknownParameterType {A} ty.

(** [tune_hparams], the inner loop: the [else] branch raises. *)
Fixpoint suggest_space (param_space : list (string * ParamSpace))
    : suggested (list (string * Param)) :=
  match param_space with
  | [] => Params []
  | (param_name, space) :: rest =>
      match suggest param_name space with
      | None => UnknownParameterType (type space)
      | Some p =>
          match suggest_space rest with
          | Params params => Params ((param_name, p) :: params)
          | UnknownParameterType ty => UnknownParameterType ty
          end
      end
  end.

(** [tune_hparams], the outer loop over the attributes. *)
Fixpoint suggest_hparams (hparams : list (string * list (string * ParamSpace)))
    : suggested (list (string * list (string * Param))) :=
  match hparams with
  | [] => Params []
  | (attribute, param_space) :: rest =>
      match suggest_space param_space with
      | UnknownParameterType ty => UnknownParameterType ty
      | Params params =>
          match suggest_hparams rest with
          | Params all => Params ((attribute, params) :: all)
          | UnknownParameterType ty => UnknownParameterType ty
          end
      end
  end.

(** [tune_motion_model]: the chain has no [else], an entry of another type
    is passed over. *)
Fixpoint suggest_motion_params (hparam_search_space : list (string * ParamSpace))
    : list (string * Param) :=
  match hparam_search_space with
  | [] => []
  | (param_name, space) :: rest =>
      match suggest param_name space with
      | Some p => (param_name, p) :: suggest_motion_params rest
      | None => suggest_motion_params rest
      end
  end.

(** The types the chain knows. *)
Definition known_type (ty : string) : Prop :=
  ty ∈ ["categorical"; "float"; "logfloat"; "int"]%string.

End Suggest.
Arguments Params {A} params.
Arguments UnknownParameterType {A} ty.
End Tuning.

Section TuningTheory.
Import Tuning.
Context {Bound Choices Param : Type}.
Variable suggest_categorical : string -> option Choices -> Param.
Variable suggest_float : string -> option Bound -> option Bound -> bool -> Param.
Variable suggest_int : string -> option Bound -> option Bound -> Param.

Abbreviation space := (@ParamSpace Bound Choices).
Abbreviation suggest := (suggest suggest_categorical suggest_float suggest_int).
Abbreviation suggest_space :=
  (suggest_space suggest_categorical suggest_float suggest_int).
Abbreviation suggest_hparams :=
  (suggest_hparams suggest_categorical suggest_float suggest_int).
Abbreviation suggest_motion_params :=
  (suggest_motion_params suggest_categorical suggest_float suggest_int).

Implicit Types (l : list (string * space)) (e : string * space).

(** An entry whose type the chain knows. *)
Definition known e : Prop := known_type (type e.2).

Lemma suggest_known (name : string) (sp : space) :
  is_Some (suggest name sp) <-> known_type (type sp).
Proof.
  unfold Tuning.suggest, known_type.
  repeat (destruct (decide _) as [->|?]); simpl.
  - split; [intros _; set_solver|by eexists].
  - split; [intros _; set_solver|by eexists].
  - split; [intros _; set_solver|by eexists].
  - split; [intros _; set_solver|by eexists].
  - split; [by intros [? ?]|]. intros Hin. exfalso.
    repeat (apply elem_of_cons in Hin as [?|Hin]; [done|]).
    by apply elem_of_nil in Hin.
Qed.

(** The two loops over one search space, by cases. *)
Lemma suggest_space_cases l :
  (suggest_motion_params l).*1 = (filter known l).*1 /\
  match suggest_space l with
  | Params params =>
      Forall known l /\ params = suggest_motion_params l /\ params.*1 = l.*1
  | UnknownParameterType ty =>
      exists before e after,
        l = before ++ e :: after /\ Forall known before /\
        ~ known e /\ ty = type e.2
  end.
Proof.
  induction l as [|[name sp] l [IHm IHs]]; [by split|]. simpl.
  pose proof (suggest_known name sp) as Hk.
  destruct (suggest name sp) as [p|] eqn:Hs.
  - assert (known (name, sp)) as Hknown by (apply Hk; by eexists).
    rewrite filter_cons_True by done. split; [simpl; f_equal; exact IHm|].
    destruct (Tuning.suggest_space _ _ _ l) as [params|ty].
    + destruct IHs as (Hall & -> & Hnames). split; [by constructor|].
      split; [done|]. simpl. f_equal. exact Hnames.
    + destruct IHs as (before & e & after & -> & Hall & Hbad & ->).
      exists ((name, sp) :: before), e, after. split; [done|].
      split; [by constructor|]. done.
  - assert (~ known (name, sp)) as Hunknown.
    { intros Hknown. apply Hk in Hknown as [? ?]. done. }
    rewrite filter_cons_False by done. split; [done|].
    exists [], (name, sp), l. split; [done|]. split; [constructor|]. done.
Qed.

(** On one search space the two loops part on an entry of unknown type:
    [tune_motion_model] passes it over and keeps, in order, the parameters of
    the entries it knows; [tune_hparams] raises for the first such entry.
    When every type is known they suggest the same parameters, one per
    entry and under its name. *)
Theorem tuning_loops_part_on_unknown_type l :
  (suggest_motion_params l).*1 = (filter known l).*1 /\
  match suggest_space l with
  | Params params =>
      Forall known l /\ params = suggest_motion_params l /\ params.*1 = l.*1
  | UnknownParameterType ty =>
      exists before e after,
        l = before ++ e :: after /\ Forall known before /\
        ~ known e /\ ty = type e.2
  end.
Proof. apply suggest_space_cases. Qed.

(** [tune_hparams] suggests for every attribute, in order, or raises for
    a type it does not know: it returns one dictionary per attribute exactly
    when every entry of every search space has a known type. *)
Theorem suggest_hparams_total_on_known_types
    (hparams : list (string * list (string * space))) :
  match suggest_hparams hparams with
  | Params all =>
      all.*1 = hparams.*1 /\
      Forall (fun a => Forall known a.2) hparams /\
      Forall2 (fun a p => p.2 = suggest_motion_params a.2) hparams all
  | UnknownParameterType ty =>
      ~ known_type ty /\
      Exists (fun a => Exists (fun e => type e.2 = ty) a.2) hparams
  end.
Proof.
  induction hparams as [|[attribute l] hparams IH]; [by repeat constructor|].
  simpl. destruct (suggest_space_cases l) as [_ Hl].
  destruct (Tuning.suggest_space _ _ _ l) as [params|ty].
  - destruct Hl as (Hall & -> & _).
    destruct (Tuning.suggest_hparams _ _ _ hparams) as [all|ty].
    + destruct IH as (Hnames & Hknown & Hparams). simpl.
      split; [f_equal; exact Hnames|]. split; by constructor.
    + destruct IH as [Hbad Hex]. split; [done|]. by apply Exists_cons_tl.
  - destruct Hl as (before & e & after & -> & _ & Hbad & ->).
    split; [done|]. apply Exists_cons_hd. simpl.
    apply Exists_app. right. by apply Exists_cons_hd.
Qed.

End TuningTheory.

(** * The remaining methods on concrete frames *)
Section SampleFacts.
Import Base.

Lemma update_tracklet_keeps_count {Value : Type} (required : list string)
    (tr : ref) (states : gmap string Value) (s : MultiObjectTracker) :
  frame_count (fst (update_tracklet required tr states s)) = frame_count s.
Proof.
  unfold update_tracklet, _check_required_observations, mbind, M_bind, bind.
  by destruct (missing_types required states).
Qed.

Lemma create_tracklet_keeps_count {Value : Type} (required required_state : list string)
    (states : gmap string Value) (s : MultiObjectTracker) :
  frame_count (fst (create_tracklet required required_state states s)) = frame_count s.
Proof.
  unfold create_tracklet, mbind, M_bind, bind, alloc_tracklet. simpl.
  rewrite !for_each_mutate_one. simpl.
  unfold _check_required_observations at 1.
  destruct (missing_types required states) eqn:Hm; [|done]. simpl.
  match goal with |- context [update_tracklet required ?r states ?s'] =>
    pose proof (update_tracklet_keeps_count required r states s') as Hk;
    destruct (update_tracklet required r states s') as [s1 [?|e]] end;
    simpl in *; done.
Qed.

Lemma pair_by_position_keeps_count tracklets detections s :
  frame_count (fst (Sample.pair_by_position tracklets detections s)) = frame_count s.
Proof.
  revert tracklets s. induction detections as [|d detections IH]; intros tracklets s.
  - by destruct tracklets.
  - destruct tracklets as [|tr tracklets]; simpl; unfold mbind, M_bind, bind.
    + pose proof (create_tracklet_keeps_count Sample.required_observation_types
                    Sample.required_state_types d s) as Hc.
      destruct (create_tracklet _ _ d s) as [s1 [r|e]]; simpl in *; [|done].
      specialize (IH [] s1).
      destruct (Sample.pair_by_position [] detections s1) as [s2 [[[a n] u]|e]];
        simpl in *; congruence.
    + pose proof (update_tracklet_keeps_count Sample.required_observation_types
                    tr d s) as Hc.
      destruct (update_tracklet _ tr d s) as [s1 [r|e]]; simpl in *; [|done].
      specialize (IH tracklets s1).
      destruct (Sample.pair_by_position tracklets detections s1) as [s2 [[[a n] u]|e]];
        simpl in *; congruence.
Qed.

Lemma by_position_in_range (trs : list (Tracklet.t Z)) (dets : list Z) :
  Forall (in_range trs dets) (TrackingModel.Sample.by_position trs dets).
Proof.
  unfold TrackingModel.Sample.by_position. apply Forall_forall. intros m Hm.
  apply list_elem_of_fmap in Hm as (i & -> & Hi).
  apply elem_of_seq in Hi. unfold in_range. simpl. lia.
Qed.

End SampleFacts.

Section MoreExamples.
Import Base.Sample.

(** A live tracklet is updated once more: two entries. *)
Lemma update_tracklet_appends_witness :
  let s := run_frames [frame [det 1 90]] (start 5 5) in
  exists s' t',
    Base.update_tracklet required_observation_types 0%nat (det 2 80) s = (s', Ret 0%nat) /\
    Base.store s' !! 0%nat = Some t' /\
    Tracklet.observations t' = [Some (det 1 90); Some (det 2 80)].
Proof.
  intros s.
  destruct (update_tracklet_appends required_observation_types 0%nat (det 2 80) s
              (Tracklet.mk 0 0 5 1 (Some 1%nat) required_observation_types
                 required_state_types [Some (det 1 90)] false))
    as (s' & t' & Hrun & Hl & Hobs & _).
  - vm_compute. reflexivity.
  - vm_compute. reflexivity.
  - exists s', t'. split; [exact Hrun|]. split; [exact Hl|exact Hobs].
Defined.

(** The first tracklet of a tracker. *)
Lemma create_tracklet_allocates_witness :
  exists s' t,
    Base.create_tracklet required_observation_types required_state_types
      (det 1 90) (start 5 5) = (s', Ret 0%nat) /\
    Base.store s' = [t] /\
    Tracklet.observation_types t = ["box"; "score"]%string.
Proof.
  destruct (create_tracklet_allocates required_observation_types required_state_types
              (det 1 90) (start 5 5))
    as (s' & t & Hrun & Hstore & _ & _ & Htypes & _).
  - vm_compute. reflexivity.
  - exists s', t. split; [exact Hrun|]. split; [exact Hstore|exact Htypes].
Defined.

(** A tracklet that tolerates no miss and is too short to keep is missed:
    it is discarded, neither live nor dead. *)
Lemma frame_conserves_tracklets_witness :
  let s := run_frames [frame [det 1 90]] (start 0 5) in
  exists s',
    Base.process_sequence_item update (frame []) s = (s', Ret tt) /\
    Base.alive_tracklets s' = [] /\
    (0%nat ∈ Base.alive_tracklets s' \/ 0%nat ∈ Base.dead_tracklets s' \/
     (Base.ref_is_stale (Base.store s') 0%nat = true /\
      Base.ref_len (Base.store s') 0%nat < Base.min_length s')).
Proof.
  intros s.
  destruct (frame_conserves_tracklets update (frame []) s (bump s) [] [] [0%nat])
    as (s' & Hrun & Halive & _ & _ & _ & Hall).
  - reflexivity.
  - vm_compute. reflexivity.
  - exists s'. split; [exact Hrun|]. split.
    + rewrite Halive. vm_compute in Hrun. injection Hrun as <-. vm_compute. reflexivity.
    + apply Hall. simpl. apply list_elem_of_here.
Defined.

(** A tracklet that tolerates five misses is missed once: still live, not
    stale. *)
Lemma live_tracklets_are_not_stale_witness :
  let s := run_frames [frame [det 1 90]] (start 5 1) in
  let s' := fst (Base.process_sequence_item update (frame []) s) in
  Base.ref_is_stale (Base.store s') 0%nat = false.
Proof.
  intros s s'.
  apply (live_tracklets_are_not_stale update (frame []) s (bump s) [] [] [0%nat] s' 0%nat).
  - reflexivity.
  - vm_compute. reflexivity.
  - vm_compute. reflexivity.
  - simpl. apply NoDup_singleton.
  - intros r t Hr. destruct r as [|r]; vm_compute in Hr; [|discriminate].
    injection Hr as <-. simpl. lia.
  - intros r t Hr. by apply elem_of_nil in Hr.
  - vm_compute. apply list_elem_of_here.
Defined.

(** A tracklet that tolerates no miss is missed: it is archived, stale and
    finalized. *)
Lemma evicted_tracklets_are_finalized_witness :
  let s := run_frames [frame [det 1 90]] (start 0 1) in
  exists s' t,
    Base.process_sequence_item update (frame []) s = (s', Ret tt) /\
    Base.store s' !! 0%nat = Some t /\ Tracklet.terminal t = true.
Proof.
  intros s.
  destruct (evicted_tracklets_are_finalized update (frame []) s (bump s) [] [] [0%nat])
    as (s' & added & Hrun & _ & _ & Hfinal).
  - reflexivity.
  - vm_compute. reflexivity.
  - destruct (Hfinal 0%nat) as (t & Ht & Hterm).
    + apply list_elem_of_here.
    + vm_compute in Hrun. injection Hrun as <-. vm_compute. reflexivity.
    + exists s', t. split; [exact Hrun|]. split; [exact Ht|exact Hterm].
Defined.

(** Three frames, windows of two, a step of one: two windows. *)
Lemma windows_are_full_witness :
  exists idxs,
    py_range 0 (3 - 2 + 1) 1 = Some idxs /\ length idxs = 2%nat.
Proof.
  destruct (windows_are_full
              (Base.mkArray [[det 1 90]; []; [det 2 80]] [720; 1280; 3]%nat)
              (start 5 5) 2 1)
    as (idxs & Hrange & Hlen & _).
  - lia.
  - lia.
  - exists idxs. split; [exact Hrange|exact Hlen].
Defined.

(** The video with windows of two frames. *)
Lemma track_wide_window_raises_witness :
  snd (Base.track update video (Base.init 2 None 5 5))
  = Raise NotImplementedError_batched.
Proof.
  unfold video.
  rewrite (track_wide_window_raises update
             (Base.mkArray [[det 1 90]; []; [det 2 80]] [720; 1280; 3]%nat)
             (Base.init 2 None 5 5)).
  - reflexivity.
  - simpl. lia.
  - simpl. lia.
  - reflexivity.
  - simpl. repeat constructor; lia.
Defined.

(** The video with windows of five frames. *)
Lemma track_without_window_raises_witness :
  snd (Base.track update video (Base.init 5 None 5 5))
  = Raise ValueError_no_objects_to_concatenate.
Proof.
  rewrite (track_without_window_raises update video (Base.init 5 None 5 5) 3).
  - reflexivity.
  - reflexivity.
  - simpl. lia.
  - simpl. lia.
Defined.

(** A list of one frame. *)
Lemma track_needs_an_array_witness :
  snd (Base.track update (Base.SrcList [[det 1 90]]) (start 5 5))
  = Raise AttributeError_squeeze.
Proof.
  destruct (track_needs_an_array update [[det 1 90]] (start 5 5)) as [Hlist _].
  - simpl. lia.
  - simpl. lia.
  - by rewrite Hlist.
Defined.

(** A tracker built with a window of no frame. *)
Lemma track_zero_step_raises_witness :
  snd (Base.track update video (Base.init 0 None 5 5))
  = Raise ValueError_range_step_zero.
Proof.
  destruct (track_zero_step_raises update video (Base.init 0 None 5 5) 3) as [Hrun _].
  - reflexivity.
  - reflexivity.
  - by rewrite Hrun.
Defined.

(** The video, frame by frame: three frames counted. *)
Lemma track_counts_windows_witness :
  Base.frame_count (fst (Base.track update video (start 5 1))) = 3%nat.
Proof.
  destruct (track_counts_windows update video (start 5 1)
              (fst (Base.track update video (start 5 1))) [0%nat])
    as (n & idxs & Hlen & Hrange & Hcount).
  - intros item l s. apply pair_by_position_keeps_count.
  - vm_compute. reflexivity.
  - rewrite Hcount. injection Hlen as <-. vm_compute in Hrange.
    injection Hrange as <-. reflexivity.
Defined.


(** One live tracker, two detections, paired by position: the counter
    advances. *)
Lemma step_leaves_fresh_trackers_witness :
  exists s' active,
    TrackingModel.Sample.step TrackingModel.Sample.by_position [7; 8]
      TrackingModel.Sample.one_tracker = (s', Ret active) /\
    TrackingModel.current_step s' = 2%nat.
Proof.
  destruct (step_leaves_fresh_trackers TrackingModel.Sample.by_position
              TrackingModel.Sample.is_invalid TrackingModel.Sample.is_active
              TrackingModel.Sample.ascending ascending_perm
              [7; 8] TrackingModel.Sample.one_tracker)
    as (s' & active & Hrun & _ & _ & Hstep & _).
  - apply by_position_in_range.
  - exists s', active. split; [exact Hrun|exact Hstep].
Defined.



(** One live tracker paired with the first of two detections: one entry
    more in its history. *)
Lemma one_update_per_live_tracker_witness :
  exists s1 t1,
    TrackingModel.match_and_update TrackingModel.Sample.by_position
      TrackingModel.Sample.ascending [7; 8] TrackingModel.Sample.one_tracker
    = (s1, Ret tt) /\
    TrackingModel.trackers s1 !! 0%nat = Some t1 /\
    length (Tracklet.observations t1) = 3%nat.
Proof.
  destruct (one_update_per_live_tracker TrackingModel.Sample.by_position
              TrackingModel.Sample.ascending ascending_perm
              [7; 8] TrackingModel.Sample.one_tracker)
    as (s1 & Hrun & Hobs).
  - apply by_position_in_range.
  - vm_compute. apply NoDup_singleton.
  - destruct (Hobs 0%nat _ eq_refl) as (t1 & Hl & Hlen).
    exists s1, t1. split; [exact Hrun|]. split; [exact Hl|exact Hlen].
Defined.

End MoreExamples.
